(** * The plate detailing page (src/app/page.js): parametric geometry,
      unit conversion, dimension labels and parameter export.

    JavaScript numbers are IEEE 754 binary64 values; they are modelled by
    Rocq's primitive [float], which is the same format with the same
    round-to-nearest-even arithmetic.  Strings are [string]s of bytes
    (UTF-8).  A call that can raise an exception returns an [outcome].

    The component is modelled by its state, the actions on it and what it
    renders from it (the scene: canvas, rectangles, axes and dimension
    elements with their label texts).  The echo of the input fields
    (inputVals), the widgets and the serialisation of the SVG node are
    presentation and are left out. *)

From Stdlib Require Import ZArith List String Ascii Bool Lia Floats.
Import ListNotations.

Set Warnings "-inexact-float".

Local Open Scope Z_scope.

(* ================================================================== *)
(** ** Outcomes: a call returns a value or throws *)

Inductive JsError : Set :=
| RangeError.

Inductive outcome (A : Type) : Type :=
| Returns (a : A)
| Throws (e : JsError).

Arguments Returns {A} a.
Arguments Throws {A} e.

Definition bind {A B : Type} (c : outcome A) (k : A -> outcome B) : outcome B :=
  match c with
  | Returns a => k a
  | Throws e => Throws e
  end.

Notation "x <- c ;; k" := (bind c (fun x => k))
  (at level 61, c at next level, right associativity).

(* ================================================================== *)
(** ** ECMAScript numbers *)

Module Js.

Local Open Scope string_scope.
Local Open Scope list_scope.
Local Open Scope float_scope.

(** [Number.isFinite] on a value that already is a number. *)
Definition Number_isFinite (x : float) : bool := is_finite x.

Definition is_pos_zero (x : float) : bool :=
  match classify x with PZero => true | _ => false end.

Definition is_neg_zero (x : float) : bool :=
  match classify x with NZero => true | _ => false end.

(** [Math.max(a, b)] and [Math.min(a, b)]: NaN if either argument is NaN,
    and +0 counts as larger than -0. *)
Definition Math_max (a b : float) : float :=
  if is_nan a || is_nan b then nan
  else if (a <? b) || (is_pos_zero b && is_neg_zero a) then b
  else a.

Definition Math_min (a b : float) : float :=
  if is_nan a || is_nan b then nan
  else if (b <? a) || (is_neg_zero b && is_pos_zero a) then b
  else a.

Definition Math_abs (x : float) : float := abs x.

(** The float with the value of the integer [z]; exact when |z| < 2^53. *)
Definition of_Z (z : Z) : float :=
  SF2Prim (binary_normalize prec emax z 0 false).

(** [Math.floor]: NaN, the infinities, the zeros and every float with a
    non-negative exponent are integers already. *)
Definition Math_floor (x : float) : float :=
  match Prim2SF x with
  | S754_finite s m e =>
      if (0 <=? e)%Z then x
      else
        let q := Z.shiftr (Zpos m) (- e) in
        if s then
          let c := if (Z.shiftl q (- e) =? Zpos m)%Z then q else (q + 1)%Z in
          of_Z (- c)
        else of_Z q
  | _ => x
  end.

(** [ToBoolean] of a number: false exactly for +0, -0 and NaN. *)
Definition ToBoolean (x : float) : bool := negb (is_zero x || is_nan x).

(** The expression [a || b] on numbers. *)
Definition or_else (a b : float) : float := if ToBoolean a then a else b.

(** [Math.hypot(x, y)].  ECMAScript fixes the result when an argument is
    infinite (+Infinity), NaN (NaN) or when all are zeros (+0); otherwise
    the result is an implementation-approximated value of the square root
    of the sum of squares, which [approx] stands for. *)
Definition Math_hypot (approx : float -> float -> float) (x y : float) : float :=
  if is_infinity x || is_infinity y then infinity
  else if is_nan x || is_nan y then nan
  else if is_zero x && is_zero y then zero
  else approx x y.

(** One implementation of the approximated case: scale by the larger
    magnitude, so that the squares cannot overflow. *)
Definition hypot_scaled (x y : float) : float :=
  let ax := abs x in
  let ay := abs y in
  let mx := if ax <? ay then ay else ax in
  let rx := ax / mx in
  let ry := ay / mx in
  sqrt (rx * rx + ry * ry) * mx.

(* ------------------------------------------------------------------ *)
(** *** Exact decimal arithmetic behind number-to-string conversions *)

Definition digit_char (d : Z) : ascii := ascii_of_nat (48 + Z.to_nat d).

Fixpoint digits_aux (fuel : nat) (n : Z) (acc : list ascii) : list ascii :=
  match fuel with
  | O => acc
  | S k =>
      let acc' := digit_char (n mod 10) :: acc in
      if (n / 10 =? 0)%Z then acc' else digits_aux k (n / 10) acc'
  end.

(** The decimal digits of [n >= 0], most significant first, no leading
    zeros (the single digit 0 for zero). *)
Definition decimal_digits (n : Z) : list ascii :=
  digits_aux (S (Z.to_nat (Z.log2 n))) n [].

Definition zero_char : ascii := "0"%char.

Definition pad_zeros (len : nat) (ds : list ascii) : list ascii :=
  repeat zero_char (len - List.length ds) ++ ds.

(** The double nearest to the rational [num / den] ([0 <= num], [0 < den]),
    ties to even: the quotient is taken with 1100 extra bits, which is below
    the smallest exponent of the format, and what is left is the rounding
    location. *)
Definition nearest_double (num den : Z) : spec_float :=
  let scaled := (num * 2 ^ 1100)%Z in
  let q := (scaled / den)%Z in
  let r := (scaled mod den)%Z in
  let l := if (r =? 0)%Z then loc_Exact else loc_Inexact (2 * r ?= den)%Z in
  binary_round_aux prec emax false q (-1100) l.

(** [c * 10^p] as a fraction. *)
Definition scale10 (c p : Z) : Z * Z :=
  if (0 <=? p)%Z then (c * 10 ^ p, 1)%Z else (c, 10 ^ (- p))%Z.

Definition decimal_to_double (c p : Z) : float :=
  let '(n, d) := scale10 c p in SF2Prim (nearest_double n d).

(** The exact value [m * 2^e] of a finite double, as a fraction. *)
Definition exact_fraction (m : positive) (e : Z) : Z * Z :=
  if (0 <=? e)%Z then (Zpos m * 2 ^ e, 1)%Z else (Zpos m, 2 ^ (- e))%Z.

Fixpoint lead_zeros (fuel : nat) (num den k : Z) : Z :=
  match fuel with
  | O => k
  | S g => if (den <=? num * 10)%Z then k else lead_zeros g (num * 10) den (k + 1)
  end.

(** The [n] with [10^(n-1) <= num/den < 10^n], for a positive double. *)
Definition decimal_exponent (num den : Z) : Z :=
  if (den <=? num)%Z then Z.of_nat (List.length (decimal_digits (num / den)))
  else (1 - lead_zeros 400 num den 1)%Z.

Fixpoint strip_trailing_zeros (ds : list ascii) : list ascii :=
  match ds with
  | [] => []
  | c :: t =>
      match strip_trailing_zeros t with
      | [] => if Ascii.eqb c zero_char then [] else [c]
      | t' => c :: t'
      end
  end.

(** Number::toString, step 5: the shortest digit string [s] (of [k] digits)
    and exponent [n] such that [s * 10^(n-k)] converts back to [x]; among
    several [s] of that length the one closest to [x], the even one on a
    tie.  Returns the digits and [n]. *)
Fixpoint shortest_digits (fuel : nat) (x : float) (num den n0 k : Z)
  : list ascii * Z :=
  let p := (k - n0)%Z in
  let '(sn, sd) := if (0 <=? p)%Z then (num * 10 ^ p, den)%Z
                   else (num, den * 10 ^ (- p))%Z in
  let lo := (sn / sd)%Z in
  let r := (sn mod sd)%Z in
  let hi := (lo + 1)%Z in
  let ok c := Leibniz.eqb (decimal_to_double c (n0 - k)) x in
  let pick c :=
    let ds := decimal_digits c in
    (strip_trailing_zeros ds, (n0 + (Z.of_nat (List.length ds) - k))%Z) in
  match fuel with
  | O => pick lo
  | S g =>
      match ok lo, ok hi with
      | true, true =>
          match (2 * r ?= sd)%Z with
          | Lt => pick lo
          | Gt => pick hi
          | Eq => if Z.even lo then pick lo else pick hi
          end
      | true, false => pick lo
      | false, true => pick hi
      | false, false => shortest_digits g x num den n0 (k + 1)
      end
  end.

Definition chars (s : string) : list ascii := list_ascii_of_string s.
Definition text (l : list ascii) : string := string_of_list_ascii l.

(** Number::toString for a positive finite double [m * 2^e]. *)
Definition positive_to_chars (x : float) (m : positive) (e : Z) : list ascii :=
  let '(num, den) := exact_fraction m e in
  let n0 := decimal_exponent num den in
  let '(ds, n) := shortest_digits 17 x num den n0 1 in
  let k := Z.of_nat (List.length ds) in
  if ((k <=? n) && (n <=? 21))%Z then
    ds ++ repeat zero_char (Z.to_nat (n - k))
  else if ((0 <? n) && (n <=? 21))%Z then
    firstn (Z.to_nat n) ds ++ chars "." ++ skipn (Z.to_nat n) ds
  else if ((-6 <? n) && (n <=? 0))%Z then
    chars "0." ++ repeat zero_char (Z.to_nat (- n)) ++ ds
  else
    let ex := (n - 1)%Z in
    let exs := chars (if (ex <? 0)%Z then "-" else "+") ++ decimal_digits (Z.abs ex) in
    match ds with
    | [d] => d :: chars "e" ++ exs
    | d :: rest => d :: chars "." ++ rest ++ chars "e" ++ exs
    | [] => []
    end.

(** Number::toString(x), radix 10. *)
Definition Number_toString (x : float) : string :=
  match Prim2SF x with
  | S754_nan => "NaN"
  | S754_zero _ => "0"
  | S754_infinity s => if s then "-Infinity" else "Infinity"
  | S754_finite s m e =>
      text ((if s then chars "-" else []) ++ positive_to_chars (abs x) m e)
  end.

(** Number.prototype.toFixed, step 10: the integer [n] for which
    [n / 10^f - m * 2^e] is as close to zero as possible, the larger [n]
    if there are two. *)
Definition fixed_integer (m : positive) (e : Z) (f : nat) : Z :=
  let num := (Zpos m * 10 ^ Z.of_nat f)%Z in
  if (0 <=? e)%Z then (num * 2 ^ e)%Z
  else ((2 * num + 2 ^ (- e)) / (2 * 2 ^ (- e)))%Z.

(** The digits of [n] with a decimal point before the last [f] of them. *)
Definition fixed_chars (n : Z) (f : nat) : list ascii :=
  match f with
  | O => decimal_digits n
  | S _ =>
      let ds := pad_zeros (S f) (decimal_digits n) in
      let k := List.length ds in
      firstn (k - f) ds ++ chars "." ++ skipn (k - f) ds
  end.

(** ToIntegerOrInfinity: NaN and the zeros give 0, a finite number is
    truncated towards zero; [None] stands for the two infinities. *)
Definition ToIntegerOrInfinity (x : float) : option Z :=
  match Prim2SF x with
  | S754_nan | S754_zero _ => Some 0%Z
  | S754_infinity _ => None
  | S754_finite s m e => Some (cond_Zopp s (Z.shiftl (Zpos m) e))
  end.

(** The number of fraction digits [toFixed] accepts: the integer part of
    its argument when that is one of 0..100. *)
Definition fraction_digits (fractionDigits : float) : option nat :=
  match ToIntegerOrInfinity fractionDigits with
  | Some f => if ((f <? 0) || (100 <? f))%Z then None else Some (Z.to_nat f)
  | None => None
  end.

(** Number.prototype.toFixed from step 6 on, with [f] fraction digits: the
    Number::toString form for NaN, the infinities and magnitudes from
    10^21 on. *)
Definition fixed_string (x : float) (f : nat) : string :=
  match Prim2SF x with
  | S754_nan => "NaN"
  | S754_infinity s => if s then "-Infinity" else "Infinity"
  | S754_zero _ => text (fixed_chars 0 f)
  | S754_finite s m e =>
      let sign := if s then chars "-" else [] in
      if 1e21 <=? abs x then text (sign ++ chars (Number_toString (abs x)))
      else text (sign ++ fixed_chars (fixed_integer m e f) f)
  end.

(** [x.toFixed(fractionDigits)]: a RangeError unless the integer part of
    [fractionDigits] is one of 0..100. *)
Definition toFixed (x fractionDigits : float) : outcome string :=
  match fraction_digits fractionDigits with
  | Some f => Returns (fixed_string x f)
  | None => Throws RangeError
  end.

(* ------------------------------------------------------------------ *)
(** *** StringToNumber: what [Number(s)] does on a string *)

Definition code (c : ascii) : nat := nat_of_ascii c.

Definition is_digit (c : ascii) : bool :=
  ((48 <=? code c) && (code c <=? 57))%nat.

(** A white space or line terminator at the head of [l] (in UTF-8), taken
    off: TAB, LF, VT, FF, CR, SP, U+00A0, U+1680, U+2000..U+200A, U+2028,
    U+2029, U+202F, U+205F, U+3000, U+FEFF. *)
Definition drop_space (l : list ascii) : option (list ascii) :=
  match map code l, l with
  | (9 | 10 | 11 | 12 | 13 | 32)%nat :: _, _ :: t => Some t
  | 194%nat :: 160%nat :: _, _ :: _ :: t => Some t
  | 225%nat :: 154%nat :: 128%nat :: _, _ :: _ :: _ :: t => Some t
  | 226%nat :: 128%nat :: b :: _, _ :: _ :: _ :: t =>
      if ((128 <=? b) && (b <=? 138) || (b =? 168) || (b =? 169) || (b =? 175))%nat
      then Some t else None
  | 226%nat :: 129%nat :: 159%nat :: _, _ :: _ :: _ :: t => Some t
  | 227%nat :: 128%nat :: 128%nat :: _, _ :: _ :: _ :: t => Some t
  | 239%nat :: 187%nat :: 191%nat :: _, _ :: _ :: _ :: t => Some t
  | _, _ => None
  end.

Fixpoint drop_spaces (fuel : nat) (l : list ascii) : list ascii :=
  match fuel with
  | O => l
  | S g => match drop_space l with
           | Some t => drop_spaces g t
           | None => l
           end
  end.

Definition all_space (l : list ascii) : bool :=
  match drop_spaces (List.length l) l with
  | [] => true
  | _ => false
  end.

Fixpoint trim_end (l : list ascii) : list ascii :=
  match l with
  | [] => []
  | c :: t => if all_space l then [] else c :: trim_end t
  end.

Definition trim (l : list ascii) : list ascii :=
  trim_end (drop_spaces (List.length l) l).

Fixpoint span_digits (l : list ascii) : list ascii * list ascii :=
  match l with
  | c :: t =>
      if is_digit c then let '(ds, r) := span_digits t in (c :: ds, r)
      else ([], l)
  | [] => ([], [])
  end.

Definition digits_value (ds : list ascii) : Z :=
  fold_left (fun acc c => (acc * 10 + (Z.of_nat (code c) - 48))%Z) ds 0%Z.

(** The value of a digit in a radix up to 16, if it is one. *)
Definition radix_digit (radix : Z) (c : ascii) : option Z :=
  let n := Z.of_nat (code c) in
  let v := if ((48 <=? n) && (n <=? 57))%Z then (n - 48)%Z
           else if ((97 <=? n) && (n <=? 102))%Z then (n - 87)%Z
           else if ((65 <=? n) && (n <=? 70))%Z then (n - 55)%Z
           else 16%Z in
  if (v <? radix)%Z then Some v else None.

Fixpoint radix_value (radix : Z) (l : list ascii) (acc : Z) : option Z :=
  match l with
  | [] => Some acc
  | c :: t =>
      match radix_digit radix c with
      | Some v => radix_value radix t (acc * radix + v)%Z
      | None => None
      end
  end.

Definition signed (neg : bool) (x : float) : float := if neg then - x else x.

(** [c * 10^p] rounded to a double; the exact quotient is only formed when
    the value is within reach of the format. *)
Definition decimal_value (c p : Z) : float :=
  let len := Z.of_nat (List.length (decimal_digits c)) in
  if (c =? 0)%Z then zero
  else if (400 <? p + len)%Z then infinity
  else if (p + len <? -400)%Z then zero
  else decimal_to_double c p.

(** The exponent part after the mantissa: nothing, or [e]/[E], an optional
    sign and at least one digit, up to the end of the string. *)
Definition exponent_part (l : list ascii) : option Z :=
  match l with
  | [] => Some 0%Z
  | c :: t =>
      if ((code c =? 101) || (code c =? 69))%nat then
        let '(neg, t') :=
          match t with
          | s :: u => if (code s =? 45)%nat then (true, u)
                      else if (code s =? 43)%nat then (false, u)
                      else (false, t)
          | [] => (false, t)
          end in
        match span_digits t' with
        | ((_ :: _) as ds, []) =>
            Some (if neg then (- digits_value ds)%Z else digits_value ds)
        | _ => None
        end
      else None
  end.

(** StrUnsignedDecimalLiteral: [Infinity], or digits with an optional
    fraction and exponent, at least one digit before or after the point. *)
Definition unsigned_decimal (l : list ascii) : option float :=
  if list_eq_dec ascii_dec l (chars "Infinity") then Some infinity
  else
    let '(ip, r1) := span_digits l in
    let '(fp, r2) :=
      match r1 with
      | c :: t => if (code c =? 46)%nat then span_digits t else ([], r1)
      | [] => ([], r1)
      end in
    match ip ++ fp with
    | [] => None
    | ds =>
        match exponent_part r2 with
        | Some ex =>
            Some (decimal_value (digits_value ds) (ex - Z.of_nat (List.length fp)))
        | None => None
        end
    end.

Definition radix_literal (l : list ascii) : option float :=
  match map code l, l with
  | 48%nat :: p :: _ :: _, _ :: _ :: t =>
      let radix := if ((p =? 120) || (p =? 88))%nat then 16%Z
                   else if ((p =? 111) || (p =? 79))%nat then 8%Z
                   else if ((p =? 98) || (p =? 66))%nat then 2%Z
                   else 0%Z in
      match radix_value radix t 0 with
      | Some v => if (radix =? 0)%Z then None else Some (decimal_value v 0)
      | None => None
      end
  | _, _ => None
  end.

(** StringToNumber: +0 for the empty or all-blank string, NaN for a string
    that is not a StringNumericLiteral. *)
Definition StringToNumber (s : string) : float :=
  match trim (chars s) with
  | [] => zero
  | (c :: t) as l =>
      match radix_literal l with
      | Some x => x
      | None =>
          let '(neg, body) :=
            if (code c =? 45)%nat then (true, t)
            else if (code c =? 43)%nat then (false, t)
            else (false, l) in
          match unsigned_decimal body with
          | Some x => signed neg x
          | None => nan
          end
      end
  end.

(** The values the page passes to [Number]: the text of an input element
    or the number a slider reports. *)
Inductive value : Type :=
| VString (s : string)
| VNumber (n : float).

Definition Number (v : value) : float :=
  match v with
  | VString s => StringToNumber s
  | VNumber n => n
  end.

(** *** Predicates used to state properties *)

(** Finite in the specification: a zero or a finite non-zero number. *)
Definition sf_finite (x : spec_float) : bool :=
  match x with
  | S754_zero _ | S754_finite _ _ _ => true
  | _ => false
  end.

(** A string with an optional minus sign, at least one integer digit and,
    after a decimal point, exactly [f] fraction digits (no point when [f]
    is 0). *)
Definition fixed_shape (s : string) (f : nat) : Prop :=
  exists sign ip fp,
    s = text (sign ++ ip ++ match f with O => [] | S _ => chars "." end ++ fp) /\
    (sign = [] \/ sign = chars "-") /\
    ip <> [] /\
    forallb is_digit ip = true /\
    forallb is_digit fp = true /\
    List.length fp = f.

End Js.

(* ================================================================== *)
(** ** src/app/page.js *)

Import Js.

Local Open Scope string_scope.
Local Open Scope list_scope.
Local Open Scope float_scope.

(** The double quote the templates end with, and the diameter sign U+2300
    (three bytes in UTF-8). *)
Definition dquote : string := String "034"%char EmptyString.
Definition diameter_sign : string :=
  String "226"%char (String "140"%char (String "128"%char EmptyString)).

(** *** helpers *)

Definition clamp (v min max : float) : float :=
  Math_max min (Math_min max v).

Definition inchesToEngineeringStr (inches precision : float)
  : outcome string :=
  let sign := if inches <? 0 then "-" else EmptyString in
  let abs := Math_abs inches in
  let feet := Math_floor (abs / 12) in
  let inch := abs - feet * 12 in
  inc <- toFixed inch precision ;;
  Returns (sign ++ Number_toString feet ++ "'-" ++ inc ++ dquote)%string.

(** The unit state holds one of the two strings in and mm. *)
Inductive Unit : Set :=
| unit_in
| unit_mm.

Definition formatValue (valueInInches : float) (unit : Unit) (precision : float)
  : outcome string :=
  match unit with
  | unit_in =>
      s <- toFixed valueInInches precision ;;
      Returns (s ++ dquote)%string
  | unit_mm =>
      let mm := valueInInches * 25.4 in
      s <- toFixed mm precision ;;
      Returns (s ++ " mm")%string
  end.

Definition ensureNumber (v : value) (fallback : float) : float :=
  let n := Number v in
  if Number_isFinite n then n else fallback.

(** *** main component: state *)

Record Params : Set := mkParams {
  width_in : float;          (* plate overall width *)
  thickness_in : float;      (* vertical size of bar *)
  centerHoleDia_in : float;  (* center hole diameter *)
}.

(** The three keys of [params]. *)
Inductive Key : Set :=
| k_width_in
| k_thickness_in
| k_centerHoleDia_in.

(** [s[key]] and [{ ...s, [key]: v }]. *)
Definition field (s : Params) (k : Key) : float :=
  match k with
  | k_width_in => width_in s
  | k_thickness_in => thickness_in s
  | k_centerHoleDia_in => centerHoleDia_in s
  end.

Definition with_field (s : Params) (k : Key) (v : float) : Params :=
  match k with
  | k_width_in => mkParams v (thickness_in s) (centerHoleDia_in s)
  | k_thickness_in => mkParams (width_in s) v (centerHoleDia_in s)
  | k_centerHoleDia_in => mkParams (width_in s) (thickness_in s) v
  end.

Record State : Set := mkState {
  unit : Unit;
  precision : float;
  showDims : bool;
  zoom : float;
  params : Params;
}.

Definition initial : State :=
  {| unit := unit_in;
     precision := 2;
     showDims := true;
     zoom := 2.5;
     params := {| width_in := 10; thickness_in := 2.5; centerHoleDia_in := 2.5 |} |}.

Definition uiVal (unit : Unit) (inches : float) : float :=
  match unit with unit_in => inches | unit_mm => inches * 25.4 end.

Definition fromUi (unit : Unit) (val : float) : float :=
  match unit with unit_in => val | unit_mm => val / 25.4 end.

(** *** constraints / computed *)

Record Computed : Set := mkComputed {
  p : Params;
  px : float -> float;
  hw : float;
  ht : float;
  scale : float;
}.

(** The body of the memo: a copy of [params] whose fields are overwritten
    one after the other. *)
Definition computed (st : State) : Computed :=
  let p := params st in
  let p := with_field p k_width_in (clamp (width_in p) 2 36) in
  let p := with_field p k_thickness_in (clamp (thickness_in p) 0.1 10) in
  let p := with_field p k_centerHoleDia_in
                      (clamp (centerHoleDia_in p) 0.1 (width_in p * 0.9)) in
  let scale := 8 in (* px per inch at zoom=1 *)
  let px := fun x => x * scale * zoom st in
  let hw := width_in p / 2 in (* half width *)
  let ht := thickness_in p / 2 in (* half thickness (vertical half) *)
  {| p := p; px := px; hw := hw; ht := ht; scale := scale |}.

(** *** unit conversion helpers for inputs *)

Definition setParam (key : Key) (uiValue : value) (st : State) : State :=
  let s := params st in
  let v := fromUi (unit st) (ensureNumber uiValue (uiVal (unit st) (field s key))) in
  mkState (unit st) (precision st) (showDims st) (zoom st) (with_field s key v).

Definition setUnit (u : Unit) (st : State) : State :=
  mkState u (precision st) (showDims st) (zoom st) (params st).

Definition setShowDims (b : bool) (st : State) : State :=
  mkState (unit st) (precision st) b (zoom st) (params st).

Definition setZoom (z : float) (st : State) : State :=
  mkState (unit st) (precision st) (showDims st) z (params st).

(** The precision input: [setPrecision(clamp(Number(v) || 0, 0, 4))]. *)
Definition setPrecision (v : value) (st : State) : State :=
  let n := clamp (or_else (Number v) 0) 0 4 in
  mkState (unit st) n (showDims st) (zoom st) (params st).

(** What the user can do to the state. *)
Inductive Action : Type :=
| SetParam (key : Key) (uiValue : value)
| SetUnit (u : Unit)
| SetPrecision (v : value)
| SetShowDims (b : bool)
| SetZoom (z : float).

Definition step (st : State) (a : Action) : State :=
  match a with
  | SetParam key uiValue => setParam key uiValue st
  | SetUnit u => setUnit u st
  | SetPrecision v => setPrecision v st
  | SetShowDims b => setShowDims b st
  | SetZoom z => setZoom z st
  end.

Definition run (actions : list Action) (st : State) : State :=
  fold_left step actions st.

(** *** parameter export: [JSON.stringify(params, null, 2)] *)

(** A number in JSON text: [null] unless finite. *)
Definition JSON_number (x : float) : string :=
  if Number_isFinite x then Number_toString x else "null".

Definition newline : string := String "010"%char EmptyString.

Definition JSON_member (key : string) (x : float) : string :=
  ("  " ++ dquote ++ key ++ dquote ++ ": " ++ JSON_number x)%string.

Definition JSON_stringify (s : Params) : string :=
  ("{" ++ newline
   ++ JSON_member "width_in" (width_in s) ++ "," ++ newline
   ++ JSON_member "thickness_in" (thickness_in s) ++ "," ++ newline
   ++ JSON_member "centerHoleDia_in" (centerHoleDia_in s) ++ newline
   ++ "}")%string.

(** The text of the blob [downloadJSON] offers as acad-block-params.json. *)
Definition downloadJSON (st : State) : string := JSON_stringify (params st).

(** *** drawing helpers *)

Record Line : Set := mkLine {
  line_x1 : float; line_y1 : float; line_x2 : float; line_y2 : float;
}.

Record TextEl : Set := mkText {
  text_x : float;
  text_y : float;
  text_transform : option string;
  text_content : string;
}.

Record Rect : Set := mkRect {
  rect_x : float; rect_y : float; rect_width : float; rect_height : float;
}.

(** What one [Dim] element draws: two extension lines, the dimension line
    (with an arrow marker at both ends) and the label. *)
Record DimG : Set := mkDimG {
  ext1 : Line;
  ext2 : Line;
  dim_line : Line;
  label : TextEl;
}.

(** The truth value of the optional [rotate] property. *)
Definition given (rotate : option float) : bool :=
  match rotate with
  | Some r => ToBoolean r
  | None => false
  end.

Section Drawing.

(** The engine's approximation inside [Math.hypot]. *)
Variable hypot_approx : float -> float -> float.

Definition Dim (x1 y1 x2 y2 offset : float) (text : string)
  (rotate : option float) : DimG :=
  (* simple dimension representation with arrows *)
  let dx := x2 - x1 in
  let dy := y2 - y1 in
  let len := Math_hypot hypot_approx dx dy in
  let ux := dx / or_else len 1 in
  let uy := dy / or_else len 1 in
  let nx := - uy in (* normal *)
  let ny := ux in
  let ox := x1 + nx * offset in
  let oy := y1 + ny * offset in
  let px := x2 + nx * offset in
  let py := y2 + ny * offset in
  {| ext1 := mkLine x1 y1 ox oy;
     ext2 := mkLine x2 y2 px py;
     dim_line := mkLine ox oy px py;
     label :=
       {| text_x := (ox + px) / 2 + (if given rotate then 14 else 0);
          text_y := (oy + py) / 2 - (if given rotate then 22 else 6);
          text_transform :=
            match rotate with
            | Some r =>
                if ToBoolean r then
                  Some ("rotate(" ++ Number_toString r ++ " "
                        ++ Number_toString ((ox + px) / 2 + 14) ++ " "
                        ++ Number_toString ((oy + py) / 2) ++ ")")%string
                else None
            | None => None
            end;
          text_content := text |} |}.

(** *** render *)

Definition margin : float := 100.

Record Scene : Set := mkScene {
  widthPx : float;
  heightPx : float;
  viewBox : string;
  hatch_left : Rect;
  hatch_right : Rect;
  outline : Rect;
  center_hole : Rect;
  axis_x : Line;
  axis_y : Line;
  dimensions : list DimG;
}.

Definition width_text (st : State) : outcome string :=
  let p := p (computed st) in
  s <- match unit st with
       | unit_in => inchesToEngineeringStr (width_in p) (precision st)
       | unit_mm => formatValue (width_in p) (unit st) (precision st)
       end ;;
  Returns ("WIDTH = " ++ s)%string.

Definition thickness_text (st : State) : outcome string :=
  formatValue (thickness_in (p (computed st))) (unit st) (precision st).

Definition center_hole_text (st : State) : outcome string :=
  s <- formatValue (centerHoleDia_in (p (computed st))) (unit st) (precision st) ;;
  Returns (diameter_sign ++ s)%string.

Definition BlockCreator (st : State) : outcome Scene :=
  let c := computed st in
  let p := p c in
  let px := px c in
  (* canvas size in px *)
  let widthPx := px (width_in p) + margin * 2 in
  let heightPx := px (thickness_in p) + margin * 2 in
  (* geometry in inches (origin at plate center) *)
  let left := - hw c in
  let right := hw c in
  let top := - ht c in
  let bottom := ht c in
  dims <-
    (if showDims st then
       wt <- width_text st ;;
       tt <- thickness_text st ;;
       ct <- center_hole_text st ;;
       Returns
         [ Dim (px left) (px bottom) (px right) (px bottom) 40 wt None;
           Dim (px left) (px top) (px left) (px bottom) 60 tt (Some (-90));
           Dim (px (- centerHoleDia_in p / 2)) (px top)
               (px (centerHoleDia_in p / 2)) (px top) (-20) ct None ]
     else Returns []) ;;
  Returns
    {| widthPx := widthPx;
       heightPx := heightPx;
       viewBox := (Number_toString (- widthPx / 2) ++ " "
                   ++ Number_toString (- heightPx / 2) ++ " "
                   ++ Number_toString widthPx ++ " "
                   ++ Number_toString heightPx)%string;
       hatch_left := mkRect (px left) (px top) (px (width_in p)) (px (thickness_in p));
       hatch_right := mkRect (px right - px (width_in p)) (px top)
                             (px (width_in p)) (px (thickness_in p));
       outline := mkRect (px left) (px top) (px (width_in p)) (px (thickness_in p));
       center_hole := mkRect (px (- centerHoleDia_in p / 2)) (px top)
                             (px (centerHoleDia_in p)) (px (thickness_in p));
       axis_x := mkLine (- widthPx) 0 widthPx 0;
       axis_y := mkLine 0 (- heightPx) 0 heightPx;
       dimensions := dims |}.

End Drawing.

(** The texts of the dimension labels of a scene, in drawing order: width,
    thickness, center hole. *)
Definition dimension_labels (sc : Scene) : list string :=
  map (fun d => text_content (label d)) (dimensions sc).

Definition line_finite (l : Line) : bool :=
  is_finite (line_x1 l) && is_finite (line_y1 l)
  && is_finite (line_x2 l) && is_finite (line_y2 l).

(** *** invariants of the parameters *)

(** No stored parameter is NaN. *)
Definition stored_ok (s : Params) : bool :=
  negb (is_nan (width_in s))
  && negb (is_nan (thickness_in s))
  && negb (is_nan (centerHoleDia_in s)).

(** The three range invariants of the plate parameters. *)
Definition in_range (c : Params) : Prop :=
  ((2 <=? width_in c) = true /\ (width_in c <=? 36) = true) /\
  ((0.1 <=? thickness_in c) = true /\ (thickness_in c <=? 10) = true) /\
  ((0.1 <=? centerHoleDia_in c) = true /\
   (centerHoleDia_in c <=? width_in c * 0.9) = true).

(** *** the panels beside the drawing *)

(** One parameter control of the left panel: what its slider is given and
    the readout beside its label. *)
Record Control : Set := mkControl {
  ctl_key : Key;
  ctl_label : string;
  ctl_min : float;
  ctl_max : float;
  ctl_step : float;
  ctl_value : float;
  ctl_readout : outcome string;
}.

(** The letter O with stroke, U+00D8 (two bytes in UTF-8). *)
Definition O_stroke : string := String "195"%char (String "152"%char EmptyString).

Definition controls (st : State) : list Control :=
  let unit := unit st in
  let p := p (computed st) in
  let inches := match unit with unit_in => true | unit_mm => false end in
  map (fun '(k, label, min, max, step) =>
         let v := uiVal unit (field p k) in
         {| ctl_key := k;
            ctl_label := label;
            ctl_min := min;
            ctl_max := max;
            ctl_step := step;
            ctl_value := v;
            ctl_readout :=
              if inches then s <- toFixed v 2 ;; Returns (s ++ dquote)%string
              else s <- toFixed v 1 ;; Returns (s ++ " mm")%string |})
      [ (k_width_in, "Width",
         if inches then 6 else 152.4,      (* 6 in = 152.4 mm *)
         if inches then 36 else 915,       (* 36 in = 915 mm *)
         if inches then 0.1 else 1);
        (k_thickness_in, "Thickness",
         if inches then 0.5 else 12.7,     (* 0.5 in = 12.7 mm *)
         if inches then 10 else 254,       (* 10 in = 254 mm *)
         if inches then 0.05 else 0.5);
        (k_centerHoleDia_in, ("Center Hole " ++ O_stroke)%string,
         if inches then 0.25 else 6.35,    (* 0.25 in = 6.35 mm *)
         if inches then Math_max 0.25 (width_in p * 0.9)
         else Math_max 6.35 (width_in p * 25.4 * 0.9),
         if inches then 0.05 else 0.5) ].

Fixpoint map_outcome {A B : Type} (f : A -> outcome B) (l : list A)
  : outcome (list B) :=
  match l with
  | [] => Returns []
  | a :: t => b <- f a ;; bs <- map_outcome f t ;; Returns (b :: bs)
  end.

(** The right panel: each parameter with its formatted value. *)
Definition properties (st : State) : outcome (list (string * string)) :=
  let p := p (computed st) in
  map_outcome
    (fun '(k, label) =>
       s <- formatValue (field p k) (unit st) (precision st) ;;
       Returns (label, s))
    [ (k_width_in, "Width");
      (k_thickness_in, "Thickness");
      (k_centerHoleDia_in, ("Center Hole " ++ O_stroke)%string) ].

(** What a scene draws, label texts apart. *)
Definition dim_geometry (d : DimG)
  : Line * Line * Line * (float * float * option string) :=
  (ext1 d, ext2 d, dim_line d,
   (text_x (label d), text_y (label d), text_transform (label d))).

Definition scene_geometry (sc : Scene) :=
  (widthPx sc, heightPx sc, viewBox sc,
   (hatch_left sc, hatch_right sc, outline sc, center_hole sc),
   (axis_x sc, axis_y sc), map dim_geometry (dimensions sc)).

(** The suffix of a formatted value. *)
Definition unit_suffix (u : Unit) : string :=
  match u with unit_in => dquote | unit_mm => " mm" end.

(** The precision is a number from 0 to 4. *)
Definition precision_ok (st : State) : bool :=
  (0 <=? precision st) && (precision st <=? 4).

(** A state with other parameters. *)
Definition with_params (st : State) (s : Params) : State :=
  mkState (unit st) (precision st) (showDims st) (zoom st) s.

(** A state whose stored parameters are not NaN and whose precision is
    within 0..4: what the actions keep. *)
Definition state_ok (st : State) : Prop :=
  stored_ok (params st) = true /\ precision_ok st = true.

(** *** the order of binary64 as a lexicographic order *)

Module FloatKey.

Local Open Scope Z_scope.

(** A key whose lexicographic order is the order of the non-NaN floats:
    the class and sign first, then the exponent and the mantissa, both
    negated for negative numbers. *)
Definition sf_key (x : spec_float) : Z * Z * Z :=
  match x with
  | S754_nan => (0, 0, 0)
  | S754_zero _ => (0, 0, 0)
  | S754_infinity true => (-2, 0, 0)
  | S754_infinity false => (2, 0, 0)
  | S754_finite true m e => (-1, - e, Zneg m)
  | S754_finite false m e => (1, e, Zpos m)
  end.

Definition lex_compare (a b : Z * Z * Z) : comparison :=
  let '(a1, a2, a3) := a in
  let '(b1, b2, b3) := b in
  match a1 ?= b1 with
  | Eq => match a2 ?= b2 with
          | Eq => a3 ?= b3
          | c => c
          end
  | c => c
  end.

Definition lex_le (a b : Z * Z * Z) : Prop :=
  let '(a1, a2, a3) := a in
  let '(b1, b2, b3) := b in
  a1 < b1 \/ (a1 = b1 /\ (a2 < b2 \/ (a2 = b2 /\ a3 <= b3))).

Definition lex_lt (a b : Z * Z * Z) : Prop :=
  let '(a1, a2, a3) := a in
  let '(b1, b2, b3) := b in
  a1 < b1 \/ (a1 = b1 /\ (a2 < b2 \/ (a2 = b2 /\ a3 < b3))).

Definition fkey (x : float) : Z * Z * Z := sf_key (Prim2SF x).

End FloatKey.

Import FloatKey.

(** *** the magnitude of a binary64 number *)

(** [sf_below M x]: [x] is a zero or a finite number below [2 ^ M] in
    magnitude. *)
Definition sf_below (M : Z) (x : spec_float) : Prop :=
  match x with
  | S754_zero _ => True
  | S754_finite _ m e => (Zdigits2 (Zpos m) + e <= M)%Z
  | _ => False
  end.

Definition below (M : Z) (x : float) : Prop := sf_below M (Prim2SF x).

(* ================================================================== *)
(** ** Facts about binary64 arithmetic

    The primitive operations are specified by [SpecFloat] (through
    [Prim2SF]); the facts below are read off that specification. *)

Module FloatFacts.

Local Open Scope Z_scope.

(** *** Shifting and rounding never produce a negative mantissa *)

Lemma shr_1_nonneg r : 0 <= shr_m r -> 0 <= shr_m (shr_1 r).
Proof.
  destruct r as [m rb sb]; simpl.
  destruct m as [|q|q]; simpl; try lia; destruct q; simpl; lia.
Qed.

Lemma shr_1_div2 r : 0 <= shr_m r -> shr_m (shr_1 r) = shr_m r / 2.
Proof.
  destruct r as [m rb sb]; simpl.
  destruct m as [|q|q]; simpl; try lia; intros _.
  - reflexivity.
  - destruct q; simpl.
    + rewrite (Pos2Z.inj_xI q). apply Z.div_unique with (r := 1); lia.
    + rewrite (Pos2Z.inj_xO q). apply Z.div_unique with (r := 0); lia.
    + reflexivity.
Qed.

Lemma iter_pos_shr_1 n : forall r,
  0 <= shr_m r ->
  0 <= shr_m (iter_pos shr_1 n r) /\
  shr_m (iter_pos shr_1 n r) = shr_m r / 2 ^ Zpos n.
Proof.
  induction n as [n IH|n IH|]; intros r Hr; simpl iter_pos.
  - pose proof (shr_1_nonneg r Hr) as H1.
    destruct (IH _ H1) as [H2 E2].
    destruct (IH _ H2) as [H3 E3].
    split; [exact H3|].
    rewrite E3, E2, shr_1_div2 by exact Hr.
    rewrite (Pos2Z.inj_xI n).
    replace (2 * Zpos n + 1) with (1 + Zpos n + Zpos n) by lia.
    rewrite !Z.pow_add_r by lia.
    rewrite !Z.div_div by lia.
    f_equal. change (2 ^ 1) with 2. ring.
  - destruct (IH _ Hr) as [H2 E2].
    destruct (IH _ H2) as [H3 E3].
    split; [exact H3|].
    rewrite E3, E2.
    rewrite Z.div_div by lia.
    rewrite <- Z.pow_add_r by lia.
    f_equal. f_equal. lia.
  - split; [apply shr_1_nonneg; exact Hr|].
    rewrite shr_1_div2 by exact Hr. reflexivity.
Qed.

Lemma shr_record_of_loc_m m l : shr_m (shr_record_of_loc m l) = m.
Proof. destruct l as [|[]]; reflexivity. Qed.

(** [shr_fexp] divides the mantissa by a power of two and raises the
    exponent by as much; the exponent it reaches is the larger of the one
    it had and the one the format asks for. *)
Lemma shr_fexp_spec m e l r e' :
  0 <= m ->
  shr_fexp prec emax m e l = (r, e') ->
  let n := Z.max 0 (fexp prec emax (Zdigits2 m + e) - e) in
  shr_m r = m / 2 ^ n /\ e' = e + n.
Proof.
  intros Hm. unfold shr_fexp, shr.
  destruct (fexp prec emax (Zdigits2 m + e) - e) as [|k|k] eqn:En;
    intros H; inversion H; subst; clear H; cbv zeta.
  - rewrite shr_record_of_loc_m. simpl. rewrite Z.div_1_r. lia.
  - destruct (iter_pos_shr_1 k (shr_record_of_loc m l)) as [_ E].
    + rewrite shr_record_of_loc_m. exact Hm.
    + rewrite E, shr_record_of_loc_m.
      rewrite Z.max_r by lia. split; reflexivity.
  - rewrite shr_record_of_loc_m. rewrite Z.max_l by lia.
    simpl. rewrite Z.div_1_r. lia.
Qed.

Lemma round_nearest_even_bounds m l :
  m <= round_nearest_even m l <= m + 1.
Proof.
  destruct l as [|[]]; simpl; try lia.
  destruct (Z.even m); lia.
Qed.

Lemma digits2_pos_bounds q :
  2 ^ (Zpos (digits2_pos q) - 1) <= Zpos q < 2 ^ Zpos (digits2_pos q).
Proof.
  induction q as [q IH|q IH|]; simpl digits2_pos.
  - rewrite Pos2Z.inj_succ, (Pos2Z.inj_xI q).
    replace (Z.succ (Zpos (digits2_pos q)) - 1)
      with (Z.succ (Zpos (digits2_pos q) - 1)) by lia.
    rewrite !Z.pow_succ_r; try lia.
  - rewrite Pos2Z.inj_succ, (Pos2Z.inj_xO q).
    replace (Z.succ (Zpos (digits2_pos q)) - 1)
      with (Z.succ (Zpos (digits2_pos q) - 1)) by lia.
    rewrite !Z.pow_succ_r; try lia.
  - change (1 <= 1 < 2). lia.
Qed.

Lemma Zdigits2_bounds m :
  0 < m -> 2 ^ (Zdigits2 m - 1) <= m < 2 ^ Zdigits2 m.
Proof.
  destruct m as [|q|q]; try lia. intros _. apply digits2_pos_bounds.
Qed.

(** A lower bound on the mantissa bounds the number of its digits. *)
Lemma Zdigits2_lower m k :
  0 <= k -> 2 ^ k <= m -> k + 1 <= Zdigits2 m.
Proof.
  intros Hk Hm.
  assert (0 < m) as Hpos by (pose proof (Z.pow_pos_nonneg 2 k); lia).
  destruct (Zdigits2_bounds m Hpos) as [_ Hu].
  destruct (Z.le_gt_cases (k + 1) (Zdigits2 m)) as [|Hlt]; [assumption|].
  assert (2 ^ Zdigits2 m <= 2 ^ k) by (apply Z.pow_le_mono_r; [lia|]; lia).
  lia.
Qed.

(** Dividing a positive mantissa by the power the format asks for leaves
    it positive, when the exponent is not below the smallest one. *)
Lemma shr_fexp_pos m e l r e' :
  0 < m -> emin <= e ->
  shr_fexp prec emax m e l = (r, e') ->
  0 < shr_m r /\ e <= e' /\ fexp prec emax (Zdigits2 m + e) <= e'.
Proof.
  intros Hm He H.
  destruct (shr_fexp_spec m e l r e' (Z.lt_le_incl _ _ Hm) H) as [E1 E2].
  cbv zeta in E1, E2.
  destruct (Zdigits2_bounds m Hm) as [Hl Hu].
  pose proof (Zdigits2_lower m 0 (Z.le_refl _)) as Hd.
  assert (1 <= Zdigits2 m) as Hd1 by (apply Hd; simpl; lia).
  unfold fexp, SpecFloat.emin, prec, emax in *.
  split; [|lia].
  rewrite E1.
  apply Z.div_str_pos. split; [apply Z.pow_pos_nonneg; lia|].
  eapply Z.le_trans; [|exact Hl].
  apply Z.pow_le_mono_r; lia.
Qed.

Lemma binary_round_aux_not_nan s m e l :
  0 <= m -> binary_round_aux prec emax s m e l <> S754_nan.
Proof.
  intros Hm. unfold binary_round_aux.
  destruct (shr_fexp prec emax m e l) as [r1 e1] eqn:E1.
  destruct (shr_fexp_spec _ _ _ _ _ Hm E1) as [M1 _].
  assert (0 <= shr_m r1) as H1
    by (rewrite M1; apply Z.div_pos; [lia|apply Z.pow_pos_nonneg; lia]).
  pose proof (round_nearest_even_bounds (shr_m r1) (loc_of_shr_record r1)) as Hr.
  destruct (shr_fexp prec emax _ e1 loc_Exact) as [r2 e2] eqn:E2.
  destruct (shr_fexp_spec _ _ _ _ _ (Z.le_trans _ _ _ H1 (proj1 Hr)) E2) as [M2 _].
  assert (0 <= shr_m r2) as H2
    by (rewrite M2; apply Z.div_pos; [lia|apply Z.pow_pos_nonneg; lia]).
  destruct (shr_m r2); try lia; try discriminate.
  destruct (e2 <=? emax - prec); discriminate.
Qed.

(** Rounding a positive mantissa whose exponent is not below the smallest
    one gives a finite number of the same sign, with an exponent the format
    allows for that many digits, or the infinity of that sign. *)
Lemma binary_round_aux_pos s m e l :
  0 < m -> emin <= e ->
  binary_round_aux prec emax s m e l = S754_infinity s \/
  exists m' e', binary_round_aux prec emax s m e l = S754_finite s m' e' /\
                fexp prec emax (Zdigits2 m + e) <= e'.
Proof.
  intros Hm He. unfold binary_round_aux.
  destruct (shr_fexp prec emax m e l) as [r1 e1] eqn:E1.
  destruct (shr_fexp_pos _ _ _ _ _ Hm He E1) as (P1 & L1 & F1).
  pose proof (round_nearest_even_bounds (shr_m r1) (loc_of_shr_record r1)) as Hr.
  destruct (shr_fexp prec emax _ e1 loc_Exact) as [r2 e2] eqn:E2.
  assert (0 < round_nearest_even (shr_m r1) (loc_of_shr_record r1)) as P by lia.
  destruct (shr_fexp_pos _ _ _ _ _ P (Z.le_trans _ _ _ He L1) E2) as (P2 & L2 & _).
  destruct (shr_m r2) as [|q|q]; try lia.
  destruct (e2 <=? emax - prec).
  - right. exists q, e2. split; [reflexivity|lia].
  - left. reflexivity.
Qed.

(** *** Classification through the specification *)

Local Open Scope float_scope.

(** Case analysis on what a float is in the specification, signs
    included. *)
Ltac sf_cases x :=
  let m := fresh "m" x in
  let e := fresh "e" x in
  destruct (Prim2SF x) as [[]|[]| |[] m e].

Lemma SFcompare_refl x : x <> S754_nan -> SFcompare x x = Some Eq.
Proof.
  destruct x as [s|s| |s m e]; simpl; try congruence; intros _;
    destruct s; try reflexivity;
    rewrite Z.compare_refl, Pos.compare_cont_refl; reflexivity.
Qed.

Lemma is_nan_spec x : is_nan x = true <-> Prim2SF x = S754_nan.
Proof.
  unfold is_nan. rewrite eqb_spec. unfold SFeqb.
  destruct (Prim2SF x) as [s|s| |s m e] eqn:E.
  - simpl. split; discriminate.
  - destruct s; simpl; split; discriminate.
  - simpl. split; reflexivity.
  - rewrite SFcompare_refl by discriminate. simpl. split; discriminate.
Qed.

Lemma not_nan_spec x : is_nan x = false <-> Prim2SF x <> S754_nan.
Proof.
  rewrite <- is_nan_spec. destruct (is_nan x); split; congruence.
Qed.

Lemma Prim2SF_infinity : Prim2SF infinity = S754_infinity false.
Proof. reflexivity. Qed.

Lemma Prim2SF_zero : Prim2SF zero = S754_zero false.
Proof. reflexivity. Qed.

Lemma is_infinity_spec x :
  is_infinity x = match Prim2SF x with S754_infinity _ => true | _ => false end.
Proof.
  unfold is_infinity. rewrite eqb_spec, abs_spec, Prim2SF_infinity.
  destruct (Prim2SF x) as [s|s| |s m e]; reflexivity.
Qed.

Lemma is_finite_spec x : is_finite x = sf_finite (Prim2SF x).
Proof.
  unfold is_finite. rewrite is_infinity_spec.
  destruct (is_nan x) eqn:N.
  - apply is_nan_spec in N. rewrite N. reflexivity.
  - apply not_nan_spec in N.
    destruct (Prim2SF x); try reflexivity. congruence.
Qed.

Lemma is_zero_spec x :
  is_zero x = match Prim2SF x with S754_zero _ => true | _ => false end.
Proof.
  unfold is_zero. rewrite eqb_spec, Prim2SF_zero.
  destruct (Prim2SF x) as [s|s| |s m e]; try reflexivity;
    destruct s; reflexivity.
Qed.

Lemma finite_not_nan x : is_finite x = true -> is_nan x = false.
Proof.
  rewrite is_finite_spec. intros H. apply not_nan_spec.
  intros E. rewrite E in H. discriminate.
Qed.

(** *** Order *)

Lemma ltb_leb a b : (a <? b) = true -> (a <=? b) = true.
Proof.
  rewrite ltb_spec, leb_spec. unfold SFltb, SFleb.
  destruct (SFcompare (Prim2SF a) (Prim2SF b)) as [[]|]; congruence.
Qed.

Lemma leb_refl a : is_nan a = false -> (a <=? a) = true.
Proof.
  intros H. apply not_nan_spec in H.
  rewrite leb_spec. unfold SFleb. rewrite SFcompare_refl by exact H.
  reflexivity.
Qed.

Lemma leb_not_nan a b :
  (a <=? b) = true -> is_nan a = false /\ is_nan b = false.
Proof.
  rewrite leb_spec, !not_nan_spec. unfold SFleb.
  destruct (Prim2SF a), (Prim2SF b); simpl; intros H;
    (discriminate || (split; discriminate)).
Qed.

Lemma leb_zeros a b :
  Js.is_neg_zero a = true -> Js.is_pos_zero b = true -> (a <=? b) = true.
Proof.
  unfold Js.is_neg_zero, Js.is_pos_zero.
  rewrite !classify_spec, leb_spec. unfold SF64classify, SFclassify.
  destruct (Prim2SF a) as [[]|[]| |[] ? ?], (Prim2SF b) as [[]|[]| |[] ? ?];
    try discriminate; try reflexivity;
    repeat match goal with
           | |- context [if ?c then _ else _] => destruct c
           end; discriminate.
Qed.

Lemma SFcompare_antisym x y :
  SFcompare y x = option_map CompOpp (SFcompare x y).
Proof.
  destruct x as [sx|sx| |sx mx ex], y as [sy|sy| |sy my ey]; simpl;
    try reflexivity;
    try (destruct sx; reflexivity);
    try (destruct sy; reflexivity);
    try (destruct sx, sy; reflexivity).
  pose proof (Pos.compare_cont_antisym mx my Eq) as A. simpl in A.
  destruct sx, sy; simpl; try reflexivity;
    rewrite (Z.compare_antisym ex ey), <- A;
    destruct (ex ?= ey)%Z; simpl; try reflexivity;
    destruct (Pos.compare_cont Eq mx my); reflexivity.
Qed.

Lemma SFcompare_some x y :
  x <> S754_nan -> y <> S754_nan -> SFcompare x y <> None.
Proof.
  destruct x as [sx|sx| |sx mx ex], y as [sy|sy| |sy my ey]; simpl;
    congruence.
Qed.

Lemma not_ltb_leb a b :
  is_nan a = false -> is_nan b = false -> (b <? a) = false -> (a <=? b) = true.
Proof.
  rewrite !not_nan_spec, ltb_spec, leb_spec. intros Ha Hb.
  unfold SFltb, SFleb. rewrite (SFcompare_antisym (Prim2SF a) (Prim2SF b)).
  pose proof (SFcompare_some _ _ Ha Hb) as T.
  destruct (SFcompare (Prim2SF a) (Prim2SF b)) as [[]|]; simpl; congruence.
Qed.

Create HintDb float_order discriminated.

#[local] Hint Resolve ltb_leb leb_refl leb_zeros not_ltb_leb : float_order.

(** *** [Math.min], [Math.max] *)

Lemma Math_min_spec a b :
  is_nan a = false -> is_nan b = false ->
  is_nan (Js.Math_min a b) = false /\
  (Js.Math_min a b <=? a) = true /\
  (Js.Math_min a b <=? b) = true.
Proof.
  intros Ha Hb. unfold Js.Math_min. rewrite Ha, Hb. simpl.
  destruct (b <? a) eqn:L; simpl.
  - repeat split; auto with float_order.
  - destruct (Js.is_neg_zero b && Js.is_pos_zero a) eqn:Z.
    + apply andb_true_iff in Z. destruct Z as [Z1 Z2].
      repeat split; auto with float_order.
    + repeat split; auto with float_order.
Qed.

Lemma Math_max_spec a b :
  is_nan a = false -> is_nan b = false ->
  is_nan (Js.Math_max a b) = false /\
  (a <=? Js.Math_max a b) = true /\
  (b <=? Js.Math_max a b) = true /\
  (Js.Math_max a b = a \/ Js.Math_max a b = b).
Proof.
  intros Ha Hb. unfold Js.Math_max. rewrite Ha, Hb. simpl.
  destruct (a <? b) eqn:L; simpl.
  - repeat split; auto with float_order.
  - destruct (Js.is_pos_zero b && Js.is_neg_zero a) eqn:Z.
    + apply andb_true_iff in Z. destruct Z as [Z1 Z2].
      repeat split; auto with float_order.
    + repeat split; auto with float_order.
Qed.

(** *** Products and quotients by a finite non-zero constant *)

Lemma SFmul_not_nan x s m e :
  x <> S754_nan -> SF64mul x (S754_finite s m e) <> S754_nan.
Proof.
  destruct x as [sx|sx| |sx mx ex]; simpl; try congruence; intros _.
  apply binary_round_aux_not_nan. lia.
Qed.

Lemma SFdiv_not_nan x s m e :
  x <> S754_nan -> SF64div x (S754_finite s m e) <> S754_nan.
Proof.
  destruct x as [sx|sx| |sx mx ex]; simpl; try congruence; intros _.
  unfold SFdiv_core_binary.
  set (e' := Z.min _ _). set (sh := (ex - e - e')%Z).
  set (m' := match sh with
             | Zpos _ => Z.shiftl (Zpos mx) sh
             | Z0 => Zpos mx
             | Zneg _ => 0%Z
             end).
  assert (0 <= m')%Z as Hm'.
  { subst m'. destruct sh; try lia. apply Z.shiftl_nonneg. lia. }
  pose proof (Z_div_mod m' (Zpos m) ltac:(lia)) as D.
  destruct (Z.div_eucl m' (Zpos m)) as [q r].
  apply binary_round_aux_not_nan.
  destruct D as [D1 D2]. nia.
Qed.

Lemma mul_not_nan x c s m e :
  Prim2SF c = S754_finite s m e -> is_nan x = false -> is_nan (x * c) = false.
Proof.
  rewrite !not_nan_spec, mul_spec. intros -> H. now apply SFmul_not_nan.
Qed.

Lemma div_not_nan x c s m e :
  Prim2SF c = S754_finite s m e -> is_nan x = false -> is_nan (x / c) = false.
Proof.
  rewrite !not_nan_spec, div_spec. intros -> H. now apply SFdiv_not_nan.
Qed.

(** A width of at least 2 leaves nine tenths of it above a tenth: the
    product has an exponent above that of 0.1, or is infinite. *)
Lemma nine_tenths_lower w :
  (2 <=? w) = true -> (0.1 <=? w * 0.9) = true.
Proof.
  rewrite !leb_spec, mul_spec.
  pose proof (Prim2SF_valid w) as V.
  change (Prim2SF 2) with (S754_finite false 4503599627370496 (-51)).
  change (Prim2SF 0.1) with (S754_finite false 7205759403792794 (-56)).
  change (Prim2SF 0.9) with (S754_finite false 8106479329266893 (-53)).
  sf_cases w; intros H;
    cbv beta iota delta [SFleb SFcompare] in H; try discriminate H.
  - reflexivity.
  - assert (-51 <= ew)%Z as He.
    { revert H. destruct (Z.compare_spec (-51) ew) as [E|E|E]; intros C;
        (lia || discriminate C). }
    clear H.
    simpl in V. unfold bounded, canonical_mantissa in V.
    apply andb_true_iff in V. destruct V as [V _].
    apply Z.eqb_eq in V. unfold fexp, SpecFloat.emin, prec, emax in V.
    assert (Zpos (digits2_pos mw) = 53)%Z as Hd by lia.
    pose proof (digits2_pos_bounds mw) as Bm. rewrite Hd in Bm.
    change (2 ^ (53 - 1))%Z with 4503599627370496%Z in Bm.
    set (mx := Zpos (mw * 8106479329266893)).
    assert (2 ^ 104 <= mx)%Z as Hmx.
    { subst mx. rewrite Pos2Z.inj_mul.
      change (2 ^ 104)%Z with (4503599627370496 * 4503599627370496)%Z. nia. }
    pose proof (Zdigits2_lower mx 104 ltac:(lia) Hmx) as Hdig.
    change (SF64mul (S754_finite false mw ew)
                    (S754_finite false 8106479329266893 (-53)))
      with (binary_round_aux prec emax false mx (ew + -53) loc_Exact).
    destruct (binary_round_aux_pos false mx (ew + -53) loc_Exact) as [R|(m' & e' & R & F)].
    + pose proof (Z.pow_pos_nonneg 2 104). lia.
    + unfold SpecFloat.emin, prec, emax. lia.
    + rewrite R. reflexivity.
    + rewrite R.
      unfold fexp, SpecFloat.emin, prec, emax in F.
      assert (-56 < e')%Z as L by lia.
      apply Z.compare_lt_iff in L.
      cbv beta iota delta [SFleb SFcompare]. rewrite L. reflexivity.
Qed.

(** *** Sums and differences *)

Lemma binary_normalize_not_nan m e sz :
  binary_normalize prec emax m e sz <> S754_nan.
Proof.
  destruct m as [|q|q]; simpl; try discriminate;
    unfold binary_round;
    destruct (shl_align q e (fexp prec emax (Zpos (digits2_pos q) + e))) as [mz ez];
    apply binary_round_aux_not_nan; lia.
Qed.

Lemma SFadd_finite_not_nan x y :
  x <> S754_nan -> sf_finite y = true -> SF64add x y <> S754_nan.
Proof.
  destruct x as [sx|sx| |sx mx ex], y as [sy|sy| |sy my ey];
    simpl; try congruence; intros _ _;
    try (destruct sx, sy; discriminate).
  apply binary_normalize_not_nan.
Qed.

Lemma SFsub_finite_not_nan x y :
  x <> S754_nan -> sf_finite y = true -> SF64sub x y <> S754_nan.
Proof.
  destruct x as [sx|sx| |sx mx ex], y as [sy|sy| |sy my ey];
    simpl; try congruence; intros _ _;
    try (destruct sx, sy; discriminate).
  apply binary_normalize_not_nan.
Qed.

Lemma add_finite_not_nan a b :
  is_nan a = false -> is_finite b = true -> is_nan (a + b) = false.
Proof.
  rewrite !not_nan_spec, is_finite_spec, add_spec.
  apply SFadd_finite_not_nan.
Qed.

Lemma sub_finite_not_nan a b :
  is_nan a = false -> is_finite b = true -> is_nan (a - b) = false.
Proof.
  rewrite !not_nan_spec, is_finite_spec, sub_spec.
  apply SFsub_finite_not_nan.
Qed.

(** The difference of a finite number and itself is +0. *)
Lemma sub_self x : is_finite x = true -> x - x = 0.
Proof.
  rewrite is_finite_spec. intros F.
  apply Prim2SF_inj. rewrite sub_spec.
  change (Prim2SF 0) with (S754_zero false).
  destruct (Prim2SF x) as [sx|sx| |sx mx ex]; try discriminate.
  - destruct sx; reflexivity.
  - unfold SF64sub, SFsub. rewrite Z.sub_diag. reflexivity.
Qed.

(** A zero times a finite number is a zero; a finite number plus a zero
    is finite. *)
Lemma zero_mul_finite z x :
  is_zero z = true -> is_finite x = true -> is_zero (z * x) = true.
Proof.
  rewrite !is_zero_spec, is_finite_spec, mul_spec.
  destruct (Prim2SF z) as [sz|sz| |sz mz ez], (Prim2SF x) as [sx|sx| |sx mx ex];
    simpl; congruence.
Qed.

Lemma finite_add_zero x z :
  is_finite x = true -> is_zero z = true -> is_finite (x + z) = true.
Proof.
  rewrite !is_finite_spec, is_zero_spec, add_spec.
  destruct (Prim2SF x) as [sx|sx| |sx mx ex], (Prim2SF z) as [sz|sz| |sz mz ez];
    simpl; try congruence; destruct sx, sz; reflexivity.
Qed.

Lemma Prim2SF_2 : Prim2SF 2 = S754_finite false 4503599627370496 (-51).
Proof. reflexivity. Qed.

(** At least a tenth is more than nothing. *)
Lemma tenth_le_pos x : (0.1 <=? x) = true -> (0 <? x) = true.
Proof.
  rewrite leb_spec, ltb_spec.
  change (Prim2SF 0.1) with (S754_finite false 7205759403792794 (-56)).
  change (Prim2SF 0) with (S754_zero false).
  sf_cases x; intros H;
    cbv beta iota delta [SFleb SFltb SFcompare] in *;
    (discriminate H || reflexivity).
Qed.

(** *** [clamp] *)

Lemma clamp_spec v lo hi :
  is_nan v = false -> (lo <=? hi) = true ->
  is_nan (clamp v lo hi) = false /\
  (lo <=? clamp v lo hi) = true /\
  (clamp v lo hi <=? hi) = true.
Proof.
  intros Hv Hle. destruct (leb_not_nan _ _ Hle) as [Hlo Hhi].
  unfold clamp.
  destruct (Math_min_spec hi v Hhi Hv) as (N1 & L1 & _).
  destruct (Math_max_spec lo (Js.Math_min hi v) Hlo N1) as (N2 & L2 & _ & [E|E]).
  - repeat split; auto. rewrite E. exact Hle.
  - repeat split; auto. rewrite E. exact L1.
Qed.

Lemma Prim2SF_25_4 : Prim2SF 25.4 = S754_finite false 7149464408450662 (-48).
Proof. reflexivity. Qed.

End FloatFacts.

(* ================================================================== *)
(** ** The stored parameters never hold NaN; the computed ones are in range *)

Import FloatFacts.

(** *** The conversions on known values *)

Example StringToNumber_examples :
  map StringToNumber
      ["abc"; EmptyString; "  "; "100"; " 2.5 "; "-0"; "1e3"; ".5"; "5."; ".";
       "0x1F"; "-0x1F"; "-Infinity"; "12px"; "1e400"; "2e-324";
       "9007199254740993"]
  = [nan; 0; 0; 100; 2.5; -0; 1000; 0.5; 5; nan;
     31; nan; neg_infinity; nan; infinity; 0;
     9007199254740992].
Proof. vm_compute. reflexivity. Qed.

Example Number_toString_examples :
  map Number_toString
      [2.5; 100; 0.1; 1e21; 1e23; 123456789012345680000; 1.5e-7; 0.000001;
       -3.25; 5e-324; 1.7976931348623157e308; 2.9999999999999996; -0; nan]
  = ["2.5"; "100"; "0.1"; "1e+21"; "1e+23"; "123456789012345680000";
     "1.5e-7"; "0.000001"; "-3.25"; "5e-324"; "1.7976931348623157e+308";
     "2.9999999999999996"; "0"; "NaN"]%string.
Proof. vm_compute. reflexivity. Qed.

Example toFixed_examples :
  map (fun x => toFixed x 2) [2.5; 0.1; 1e21; 1.005; 2.345; -0.001; -0; 12345.678]
  = map Returns ["2.50"; "0.10"; "1e+21"; "1.00"; "2.35"; "-0.00"; "0.00";
                 "12345.68"]%string
  /\ map (fun x => toFixed x 0) [2.5; 0.5; -2.5; 0.4]
     = map Returns ["3"; "1"; "-3"; "0"]%string
  /\ map (toFixed 1.5) [2.7; -0.5; nan; 100; 101; -1; infinity]
     = [Returns "1.50"; Returns "2"; Returns "2";
        Returns ("1.5" ++ text (repeat zero_char 99));
        Throws RangeError; Throws RangeError; Throws RangeError]%string.
Proof. vm_compute. repeat split. Qed.

Example Math_floor_examples :
  map Math_floor [2.5; -2.5; 0.5; -0.5; 15 / 12; -0; 3; -3; 123456.789; infinity]
  = [2; -3; 0; -1; 1; -0; 3; -3; 123456; infinity].
Proof. vm_compute. reflexivity. Qed.

(** The initial scene: a 400 x 250 canvas around a plate of 200 x 50
    pixels. *)
Example initial_scene_geometry :
  (sc <- BlockCreator hypot_scaled initial ;;
   Returns (widthPx sc, heightPx sc, viewBox sc, outline sc, center_hole sc))
  = Returns (400, 250, "-200 -125 400 250"%string,
             mkRect (-100) (-25) 200 50, mkRect (-25) (-25) 50 50).
Proof. vm_compute. reflexivity. Qed.

Lemma stored_ok_fields s :
  stored_ok s = true <->
  is_nan (width_in s) = false /\ is_nan (thickness_in s) = false /\
  is_nan (centerHoleDia_in s) = false.
Proof.
  unfold stored_ok. rewrite !andb_true_iff, !negb_true_iff. tauto.
Qed.

Lemma stored_ok_field s k : stored_ok s = true -> is_nan (field s k) = false.
Proof.
  rewrite stored_ok_fields. intros (W & T & H). destruct k; assumption.
Qed.

Lemma stored_ok_with_field s k v :
  stored_ok s = true -> is_nan v = false -> stored_ok (with_field s k v) = true.
Proof.
  rewrite !stored_ok_fields. intros (W & T & H) V.
  destruct k; simpl; auto.
Qed.

Lemma uiVal_not_nan u x : is_nan x = false -> is_nan (uiVal u x) = false.
Proof.
  destruct u; simpl; [auto|]. apply (mul_not_nan _ _ _ _ _ Prim2SF_25_4).
Qed.

Lemma fromUi_not_nan u x : is_nan x = false -> is_nan (fromUi u x) = false.
Proof.
  destruct u; simpl; [auto|]. apply (div_not_nan _ _ _ _ _ Prim2SF_25_4).
Qed.

Lemma ensureNumber_not_nan v fb :
  is_nan fb = false -> is_nan (ensureNumber v fb) = false.
Proof.
  intros H. unfold ensureNumber, Number_isFinite.
  destruct (is_finite (Number v)) eqn:F; [|exact H].
  now apply finite_not_nan.
Qed.

Lemma setParam_stored_ok key uiValue st :
  stored_ok (params st) = true ->
  stored_ok (params (setParam key uiValue st)) = true.
Proof.
  intros H. unfold setParam. cbn [params].
  apply stored_ok_with_field; [exact H|].
  apply fromUi_not_nan, ensureNumber_not_nan, uiVal_not_nan.
  now apply stored_ok_field.
Qed.

Lemma step_stored_ok st a :
  stored_ok (params st) = true -> stored_ok (params (step st a)) = true.
Proof.
  intros H. destruct a; try exact H.
  apply setParam_stored_ok, H.
Qed.

Lemma run_stored_ok actions : forall st,
  stored_ok (params st) = true -> stored_ok (params (run actions st)) = true.
Proof.
  unfold run.
  induction actions as [|a rest IH]; intros st H; simpl; [exact H|].
  apply IH, step_stored_ok, H.
Qed.

(** The computed parameters, field by field: the overwrites of the memo
    leave each field clamped, the hole against the clamped width. *)
Lemma computed_p st :
  let s := params st in
  let w := clamp (width_in s) 2 36 in
  p (computed st) =
    {| width_in := w;
       thickness_in := clamp (thickness_in s) 0.1 10;
       centerHoleDia_in := clamp (centerHoleDia_in s) 0.1 (w * 0.9) |}.
Proof. reflexivity. Qed.

Lemma computed_in_range st :
  stored_ok (params st) = true -> in_range (p (computed st)).
Proof.
  rewrite stored_ok_fields. intros (W & T & H).
  rewrite computed_p. unfold in_range.
  cbn [width_in thickness_in centerHoleDia_in].
  destruct (clamp_spec (width_in (params st)) 2 36 W eq_refl) as (_ & W1 & W2).
  destruct (clamp_spec (thickness_in (params st)) 0.1 10 T eq_refl) as (_ & T1 & T2).
  destruct (clamp_spec (centerHoleDia_in (params st)) 0.1
              (clamp (width_in (params st)) 2 36 * 0.9) H
              (nine_tenths_lower _ W1)) as (_ & H1 & H2).
  tauto.
Qed.

(* ================================================================== *)
(** ** Parameter updates *)

Lemma with_field_same s k : with_field s k (field s k) = s.
Proof. destruct s, k; reflexivity. Qed.

Lemma field_with_field s k v : field (with_field s k v) k = v.
Proof. destruct k; reflexivity. Qed.

Lemma field_with_other s k k' v :
  k' <> k -> field (with_field s k v) k' = field s k'.
Proof. destruct k, k'; simpl; congruence. Qed.

(** What an update stores in the field it is given: the number of the
    entry, divided by 25.4 in millimetres, when that number is finite;
    otherwise the previous value, which in millimetres is multiplied by
    25.4 and divided by 25.4 again. *)
Lemma setParam_stores_entry st key uiValue :
  Number_isFinite (Number uiValue) = true ->
  field (params (setParam key uiValue st)) key =
    match unit st with
    | unit_in => Number uiValue
    | unit_mm => Number uiValue / 25.4
    end.
Proof.
  intros F. unfold setParam, ensureNumber. cbn [params].
  rewrite F, field_with_field. destruct (unit st); reflexivity.
Qed.

Lemma setParam_stores_previous st key uiValue :
  Number_isFinite (Number uiValue) = false ->
  field (params (setParam key uiValue st)) key =
    match unit st with
    | unit_in => field (params st) key
    | unit_mm => field (params st) key * 25.4 / 25.4
    end.
Proof.
  intros F. unfold setParam, ensureNumber. cbn [params].
  rewrite F, field_with_field. destruct (unit st); reflexivity.
Qed.

Lemma setParam_other_fields st key uiValue k :
  k <> key -> field (params (setParam key uiValue st)) k = field (params st) k.
Proof. intros Hk. unfold setParam. cbn [params]. now apply field_with_other. Qed.

(** C1: an update through [setParam] stores the number of the entry in
    inches (the entry itself in inches, the entry divided by 25.4 in
    millimetres; an entry that is no finite number stores the previous
    value passed through the display unit) in the field it is given and
    leaves the other two fields; the computed parameters are then the
    stored ones with the width clamped to [2, 36], the thickness to
    [0.1, 10] and the center hole to [0.1, 0.9 x the clamped width], and
    they satisfy the three range invariants. *)
Theorem setParam_computed_in_range st key uiValue :
  stored_ok (params st) = true ->
  let s' := params (setParam key uiValue st) in
  let w := clamp (width_in s') 2 36 in
  (Number_isFinite (Number uiValue) = true ->
   field s' key = match unit st with
                  | unit_in => Number uiValue
                  | unit_mm => Number uiValue / 25.4
                  end) /\
  (Number_isFinite (Number uiValue) = false ->
   field s' key = match unit st with
                  | unit_in => field (params st) key
                  | unit_mm => field (params st) key * 25.4 / 25.4
                  end) /\
  (forall k, k <> key -> field s' k = field (params st) k) /\
  p (computed (setParam key uiValue st)) =
    {| width_in := w;
       thickness_in := clamp (thickness_in s') 0.1 10;
       centerHoleDia_in := clamp (centerHoleDia_in s') 0.1 (w * 0.9) |} /\
  in_range (p (computed (setParam key uiValue st))).
Proof.
  intros Hok s' w.
  split; [apply setParam_stores_entry|].
  split; [apply setParam_stores_previous|].
  split; [intros k; apply setParam_other_fields|].
  split; [apply computed_p|].
  apply computed_in_range.
  apply (setParam_stored_ok key uiValue st Hok).
Qed.

(** The entry 100 for the width of the initial plate, in inches: 100 is
    stored and the computed width is 36.  The entry 1016 for the width in
    millimetres: 1016 / 25.4 = 40 is stored and the computed width is 36;
    the entry 508 stores 20, which is also the computed width. *)
Lemma setParam_computed_in_range_witness :
  (let st' := setParam k_width_in (VString "100") initial in
   width_in (params st') = 100 /\
   p (computed st') =
     {| width_in := 36; thickness_in := 2.5; centerHoleDia_in := 2.5 |} /\
   in_range (p (computed st'))) /\
  (let st' := setParam k_width_in (VString "1016") (setUnit unit_mm initial) in
   width_in (params st') = 40 /\
   p (computed st') =
     {| width_in := 36; thickness_in := 2.5; centerHoleDia_in := 2.5 |} /\
   in_range (p (computed st'))) /\
  (let st' := setParam k_width_in (VString "508") (setUnit unit_mm initial) in
   width_in (params st') = 20 /\
   p (computed st') =
     {| width_in := 20; thickness_in := 2.5; centerHoleDia_in := 2.5 |}).
Proof.
  pose proof (setParam_computed_in_range initial k_width_in (VString "100")
                eq_refl) as A.
  pose proof (setParam_computed_in_range (setUnit unit_mm initial) k_width_in
                (VString "1016") eq_refl) as B.
  pose proof (setParam_computed_in_range (setUnit unit_mm initial) k_width_in
                (VString "508") eq_refl) as C.
  cbv zeta in A, B, C.
  destruct A as (A1 & _ & _ & A4 & A5).
  destruct B as (B1 & _ & _ & B4 & B5).
  destruct C as (C1 & _ & _ & C4 & _).
  exact (conj (conj (A1 eq_refl) (conj A4 A5))
              (conj (conj (B1 eq_refl) (conj B4 B5))
                    (conj (C1 eq_refl) C4))).
Defined.

(** C2: after any finite sequence of actions from the initial state the
    computed center hole is at most 0.9 x the computed width.  The export
    does not show the computed parameters but the stored ones, and there
    the bound fails: after the width 36, the hole 30 and the width 4 the
    drawing has the hole 4 x 0.9 in the width 4, while the stored
    parameters and the exported document hold the hole 30 next to the
    width 4. *)
Theorem hole_within_nine_tenths_of_width :
  (forall actions,
     let c := p (computed (run actions initial)) in
     (centerHoleDia_in c <=? width_in c * 0.9) = true) /\
  (let st := run [SetParam k_width_in (VString "36");
                  SetParam k_centerHoleDia_in (VString "30");
                  SetParam k_width_in (VString "4")] initial in
   p (computed st) =
     {| width_in := 4; thickness_in := 2.5; centerHoleDia_in := 4 * 0.9 |} /\
   params st =
     {| width_in := 4; thickness_in := 2.5; centerHoleDia_in := 30 |} /\
   downloadJSON st =
     ("{" ++ newline
      ++ "  " ++ dquote ++ "width_in" ++ dquote ++ ": 4," ++ newline
      ++ "  " ++ dquote ++ "thickness_in" ++ dquote ++ ": 2.5," ++ newline
      ++ "  " ++ dquote ++ "centerHoleDia_in" ++ dquote ++ ": 30" ++ newline
      ++ "}")%string /\
   (centerHoleDia_in (params st) <=? width_in (params st) * 0.9) = false).
Proof.
  split.
  - intros actions c.
    assert (in_range c) as R
      by (apply computed_in_range, run_stored_ok; reflexivity).
    exact (proj2 (proj2 (proj2 R))).
  - vm_compute. repeat split.
Qed.

(** C3: an entry that is no finite number raises nothing and is never
    stored: the field is set to its previous value converted to the
    display unit and back, and the other fields keep their values.  In
    inches that is the previous value and nothing changes.  In
    millimetres it is (previous * 25.4) / 25.4, which is not always the
    previous value: with a stored width of 3 the entry abc leaves
    2.9999999999999996, so the field does not stay at its previous
    value. *)
Theorem invalid_entry_round_trips_previous_value :
  (forall st key uiValue,
     Number_isFinite (Number uiValue) = false ->
     field (params (setParam key uiValue st)) key =
       match unit st with
       | unit_in => field (params st) key
       | unit_mm => field (params st) key * 25.4 / 25.4
       end /\
     (unit st = unit_in -> params (setParam key uiValue st) = params st) /\
     (forall k, k <> key ->
        field (params (setParam key uiValue st)) k = field (params st) k) /\
     (stored_ok (params st) = true ->
      stored_ok (params (setParam key uiValue st)) = true)) /\
  (let st := run [SetParam k_width_in (VString "3"); SetUnit unit_mm] initial in
   Number_isFinite (Number (VString "abc")) = false /\
   width_in (params st) = 3 /\
   width_in (params (setParam k_width_in (VString "abc") st))
     = 2.9999999999999996 /\
   (width_in (params (setParam k_width_in (VString "abc") st))
    =? width_in (params st)) = false).
Proof.
  split; [|vm_compute; repeat split].
  intros st key uiValue Hbad.
  pose proof (setParam_stores_previous st key uiValue Hbad) as E.
  split; [exact E|]. split; [|split].
  - intros U. rewrite U in E.
    assert (params (setParam key uiValue st)
            = with_field (params st) key (field (params (setParam key uiValue st)) key))
      as W by (unfold setParam; cbn [params]; now rewrite field_with_field).
    rewrite W, E. apply with_field_same.
  - intros k. apply setParam_other_fields.
  - apply setParam_stored_ok.
Qed.

(** The entry abc for the width of the initial plate, in inches, changes
    nothing. *)
Lemma invalid_entry_round_trips_previous_value_witness :
  params (setParam k_width_in (VString "abc") initial) = params initial.
Proof.
  exact (proj1 (proj2 (proj1 invalid_entry_round_trips_previous_value
                         initial k_width_in (VString "abc") eq_refl))
               eq_refl).
Defined.

Lemma clamp_zero_tenth hi : (0.1 <=? hi) = true -> clamp 0 0.1 hi = 0.1.
Proof.
  intros H. unfold clamp.
  assert (Math_min hi 0 = 0) as E.
  { unfold Math_min.
    rewrite (proj2 (leb_not_nan _ _ H)), (tenth_le_pos _ H). reflexivity. }
  rewrite E. reflexivity.
Qed.

(** C9: an empty entry is the finite number 0, so the update stores it (0
    in either unit) instead of leaving the field unchanged, and the
    computed field is then the lower bound of its range.  The update
    takes the number of the entry whenever that number is finite, as for
    7; it falls back to the previous value (through the display unit)
    only when the number is not finite, as for abc, which in inches
    leaves the parameters as they were. *)
Theorem empty_entry_stores_zero st key :
  stored_ok (params st) = true ->
  Number (VString EmptyString) = 0 /\
  params (setParam key (VString EmptyString) st) = with_field (params st) key 0 /\
  field (p (computed (setParam key (VString EmptyString) st))) key =
    match key with k_width_in => 2 | _ => 0.1 end /\
  (forall uiValue,
     Number_isFinite (Number uiValue) = true ->
     field (params (setParam key uiValue st)) key =
       match unit st with
       | unit_in => Number uiValue
       | unit_mm => Number uiValue / 25.4
       end) /\
  (forall uiValue,
     Number_isFinite (Number uiValue) = false ->
     field (params (setParam key uiValue st)) key =
       match unit st with
       | unit_in => field (params st) key
       | unit_mm => field (params st) key * 25.4 / 25.4
       end) /\
  field (params (setParam key (VString "7") st)) key =
    match unit st with unit_in => 7 | unit_mm => 7 / 25.4 end /\
  Number_isFinite (Number (VString "abc")) = false /\
  field (params (setParam key (VString "abc") st)) key =
    match unit st with
    | unit_in => field (params st) key
    | unit_mm => field (params st) key * 25.4 / 25.4
    end /\
  (unit st = unit_in ->
   params (setParam key (VString "abc") st) = params st).
Proof.
  intros Hok.
  assert (params (setParam key (VString EmptyString) st)
          = with_field (params st) key 0) as E.
  { unfold setParam, ensureNumber. cbn [params].
    change (Number (VString EmptyString)) with 0.
    change (Number_isFinite 0) with true. cbv iota.
    destruct (unit st); reflexivity. }
  assert (Number_isFinite (Number (VString "abc")) = false) as Habc
    by reflexivity.
  assert (Number (VString "7") = 7) as H7 by reflexivity.
  split; [reflexivity|]. split; [exact E|]. split; [|split; [|split; [|split]]].
  - rewrite computed_p, E.
    destruct key; cbn [field with_field width_in thickness_in centerHoleDia_in];
      try reflexivity.
    apply clamp_zero_tenth, nine_tenths_lower.
    apply stored_ok_fields in Hok. destruct Hok as (W & _).
    exact (proj1 (proj2 (clamp_spec (width_in (params st)) 2 36 W eq_refl))).
  - intros uiValue. apply setParam_stores_entry.
  - intros uiValue. apply setParam_stores_previous.
  - rewrite <- H7. apply setParam_stores_entry. rewrite H7. reflexivity.
  - split; [exact Habc|].
    pose proof (setParam_stores_previous st key (VString "abc") Habc) as P.
    split; [exact P|].
    intros U. rewrite U in P.
    assert (params (setParam key (VString "abc") st)
            = with_field (params st) key
                (field (params (setParam key (VString "abc") st)) key))
      as W by (unfold setParam; cbn [params]; now rewrite field_with_field).
    rewrite W, P. apply with_field_same.
Qed.

(** The width of the initial plate: the empty entry stores 0, and the
    computed width is 2; the entry 7 stores 7; the entry abc leaves 10. *)
Lemma empty_entry_stores_zero_witness :
  params (setParam k_width_in (VString EmptyString) initial) =
    {| width_in := 0; thickness_in := 2.5; centerHoleDia_in := 2.5 |} /\
  width_in (p (computed (setParam k_width_in (VString EmptyString) initial))) = 2 /\
  width_in (params (setParam k_width_in (VString "7") initial)) = 7 /\
  params (setParam k_width_in (VString "abc") initial) = params initial.
Proof.
  pose proof (empty_entry_stores_zero initial k_width_in eq_refl)
    as (_ & H2 & H3 & _ & _ & H6 & _ & _ & H9).
  exact (conj H2 (conj H3 (conj H6 (H9 eq_refl)))).
Defined.

(** C10: the export serializes the three stored parameters as they are
    stored, whatever the state: its members are the stored width,
    thickness and center hole, not the computed ones, and an update
    stores the converted entry without clamping it.  So after the entry
    100 for the width the document holds the width 100, above the upper
    bound 36 to which the drawing clamps it; after the entry 50 for the
    thickness it holds 50 where the drawing has 10, and after the entry
    0.01 for the center hole it holds 0.01 where the drawing has 0.1. *)
Theorem export_holds_stored_values :
  (forall st,
     downloadJSON st =
       ("{" ++ newline
        ++ "  " ++ dquote ++ "width_in" ++ dquote ++ ": "
        ++ JSON_number (width_in (params st)) ++ "," ++ newline
        ++ "  " ++ dquote ++ "thickness_in" ++ dquote ++ ": "
        ++ JSON_number (thickness_in (params st)) ++ "," ++ newline
        ++ "  " ++ dquote ++ "centerHoleDia_in" ++ dquote ++ ": "
        ++ JSON_number (centerHoleDia_in (params st)) ++ newline
        ++ "}")%string) /\
  (forall x, Number_isFinite x = true -> JSON_number x = Number_toString x) /\
  (forall st key x,
     Number_isFinite x = true ->
     field (params (setParam key (VNumber x) st)) key =
       match unit st with unit_in => x | unit_mm => x / 25.4 end) /\
  (let st := run [SetParam k_width_in (VString "100")] initial in
   downloadJSON st =
     ("{" ++ newline
      ++ "  " ++ dquote ++ "width_in" ++ dquote ++ ": 100," ++ newline
      ++ "  " ++ dquote ++ "thickness_in" ++ dquote ++ ": 2.5," ++ newline
      ++ "  " ++ dquote ++ "centerHoleDia_in" ++ dquote ++ ": 2.5" ++ newline
      ++ "}")%string /\
   width_in (params st) = 100 /\
   (width_in (params st) <=? 36) = false /\
   width_in (p (computed st)) = 36) /\
  (let st := run [SetParam k_thickness_in (VString "50")] initial in
   downloadJSON st =
     ("{" ++ newline
      ++ "  " ++ dquote ++ "width_in" ++ dquote ++ ": 10," ++ newline
      ++ "  " ++ dquote ++ "thickness_in" ++ dquote ++ ": 50," ++ newline
      ++ "  " ++ dquote ++ "centerHoleDia_in" ++ dquote ++ ": 2.5" ++ newline
      ++ "}")%string /\
   (thickness_in (params st) <=? 10) = false /\
   thickness_in (p (computed st)) = 10) /\
  (let st := run [SetParam k_centerHoleDia_in (VString "0.01")] initial in
   downloadJSON st =
     ("{" ++ newline
      ++ "  " ++ dquote ++ "width_in" ++ dquote ++ ": 10," ++ newline
      ++ "  " ++ dquote ++ "thickness_in" ++ dquote ++ ": 2.5," ++ newline
      ++ "  " ++ dquote ++ "centerHoleDia_in" ++ dquote ++ ": 0.01" ++ newline
      ++ "}")%string /\
   (0.1 <=? centerHoleDia_in (params st)) = false /\
   centerHoleDia_in (p (computed st)) = 0.1).
Proof.
  split; [intros st; reflexivity|].
  split; [intros x F; unfold JSON_number; rewrite F; reflexivity|].
  split.
  - intros st key x F.
    exact (setParam_stores_entry st key (VNumber x) F).
  - repeat split; vm_compute; reflexivity.
Qed.

(* ================================================================== *)
(** ** Formatting *)

Lemma is_digit_digit_char d : (0 <= d < 10)%Z -> is_digit (digit_char d) = true.
Proof.
  intros H. unfold is_digit, code, digit_char.
  rewrite nat_ascii_embedding by lia.
  apply andb_true_iff. split; apply Nat.leb_le; lia.
Qed.

Lemma digits_aux_digits fuel : forall n acc,
  forallb is_digit acc = true ->
  forallb is_digit (digits_aux fuel n acc) = true.
Proof.
  induction fuel as [|fuel IH]; intros n acc H; cbn [digits_aux]; [exact H|].
  assert (forallb is_digit (digit_char (n mod 10) :: acc) = true) as H'.
  { cbn [forallb]. rewrite H, is_digit_digit_char; [reflexivity|].
    apply Z.mod_pos_bound. lia. }
  destruct (n / 10 =? 0)%Z; [exact H'|apply IH, H'].
Qed.

Lemma digits_aux_nonempty fuel : forall n acc,
  acc <> [] -> digits_aux fuel n acc <> [].
Proof.
  induction fuel as [|fuel IH]; intros n acc H; cbn [digits_aux]; [exact H|].
  destruct (n / 10 =? 0)%Z; [discriminate|apply IH; discriminate].
Qed.

Lemma decimal_digits_digits n : forallb is_digit (decimal_digits n) = true.
Proof. apply digits_aux_digits. reflexivity. Qed.

Lemma decimal_digits_nonempty n : decimal_digits n <> [].
Proof.
  unfold decimal_digits. cbn [digits_aux].
  destruct (n / 10 =? 0)%Z; [discriminate|].
  apply digits_aux_nonempty. discriminate.
Qed.

Lemma digits_value_app l1 l2 :
  digits_value (l1 ++ l2)
  = (digits_value l1 * 10 ^ Z.of_nat (List.length l2) + digits_value l2)%Z.
Proof.
  unfold digits_value.
  assert (forall l a b,
            fold_left (fun acc c => (acc * 10 + (Z.of_nat (code c) - 48))%Z) l (a + b)%Z
            = (a * 10 ^ Z.of_nat (List.length l)
               + fold_left (fun acc c => (acc * 10 + (Z.of_nat (code c) - 48))%Z) l b)%Z)
    as G.
  { induction l as [|c l IH]; intros a b; cbn [fold_left List.length].
    - change (10 ^ Z.of_nat 0)%Z with 1%Z. ring.
    - replace ((a + b) * 10 + (Z.of_nat (code c) - 48))%Z
        with (a * 10 + (b * 10 + (Z.of_nat (code c) - 48)))%Z by ring.
      rewrite IH, Nat2Z.inj_succ, Z.pow_succ_r by lia. ring. }
  rewrite fold_left_app.
  specialize (G l2 (digits_value l1) 0%Z).
  unfold digits_value in G. rewrite Z.add_0_r in G. exact G.
Qed.

Lemma code_digit_char d : (0 <= d < 10)%Z -> (Z.of_nat (code (digit_char d)) - 48 = d)%Z.
Proof.
  intros H. unfold code, digit_char.
  rewrite nat_ascii_embedding by lia. lia.
Qed.

Lemma digits_aux_value fuel : forall n acc,
  (0 < n < 10 ^ Z.of_nat fuel)%Z ->
  digits_value (digits_aux fuel n acc)
  = (n * 10 ^ Z.of_nat (List.length acc) + digits_value acc)%Z.
Proof.
  induction fuel as [|fuel IH]; intros n acc H.
  - change (10 ^ Z.of_nat 0)%Z with 1%Z in H. lia.
  - cbn [digits_aux].
    assert (0 <= n mod 10 < 10)%Z as Hm by (apply Z.mod_pos_bound; lia).
    assert (digits_value (digit_char (n mod 10) :: acc)
            = ((n mod 10) * 10 ^ Z.of_nat (List.length acc) + digits_value acc)%Z) as Hd.
    { change (digit_char (n mod 10) :: acc) with ([digit_char (n mod 10)] ++ acc).
      rewrite digits_value_app. unfold digits_value at 1. cbn [fold_left].
      rewrite code_digit_char by exact Hm. f_equal. }
    pose proof (Z.div_mod n 10 ltac:(lia)) as Hdm.
    destruct (Z.eqb_spec (n / 10) 0) as [E|E].
    + rewrite Hd. f_equal. f_equal. lia.
    + rewrite IH.
      * rewrite Hd. cbn [List.length]. rewrite Nat2Z.inj_succ, Z.pow_succ_r by lia.
        nia.
      * rewrite Nat2Z.inj_succ, Z.pow_succ_r in H by lia.
        assert (0 <= n / 10)%Z by (apply Z.div_pos; lia).
        split; [lia|]. apply Z.div_lt_upper_bound; lia.
Qed.

(** The digits of a non-negative integer are its decimal representation:
    read back, they give the integer. *)
Lemma decimal_digits_value n : (0 <= n)%Z -> digits_value (decimal_digits n) = n.
Proof.
  intros H. destruct (Z.eqb_spec n 0) as [->|Hn]; [reflexivity|].
  unfold decimal_digits. rewrite digits_aux_value.
  - change (digits_value []) with 0%Z. cbn [List.length].
    change (10 ^ Z.of_nat 0)%Z with 1%Z. ring.
  - split; [lia|].
    rewrite Nat2Z.inj_succ, Z2Nat.id by apply Z.log2_nonneg.
    destruct (Z.log2_spec n ltac:(lia)) as [_ Hu].
    eapply Z.lt_le_trans; [exact Hu|].
    apply Z.pow_le_mono_l. lia.
Qed.

(** The integer [toFixed] prints is the one nearest to the scaled value,
    the larger one when two are equally near. *)
Lemma fixed_integer_nearest m e f :
  (e < 0)%Z ->
  let n := fixed_integer m e f in
  let num := (Zpos m * 10 ^ Z.of_nat f)%Z in
  let den := (2 ^ (- e))%Z in
  (2 * num - den < 2 * den * n <= 2 * num + den)%Z.
Proof.
  intros He n num den. subst n. unfold fixed_integer.
  destruct (Z.leb_spec 0 e) as [?|_]; [lia|]. fold num. fold den.
  assert (0 < den)%Z as Hd by (apply Z.pow_pos_nonneg; lia).
  pose proof (Z.div_mod (2 * num + den) (2 * den) ltac:(lia)) as D.
  pose proof (Z.mod_pos_bound (2 * num + den) (2 * den) ltac:(lia)) as B.
  lia.
Qed.

Lemma forallb_repeat_zero k : forallb is_digit (repeat zero_char k) = true.
Proof. induction k; simpl; auto. Qed.

Lemma fixed_chars_shape n f :
  exists ip fp,
    fixed_chars n f = ip ++ match f with O => [] | S _ => chars "." end ++ fp /\
    ip <> [] /\
    forallb is_digit ip = true /\
    forallb is_digit fp = true /\
    List.length fp = f.
Proof.
  destruct f as [|f'].
  - exists (decimal_digits n), []. simpl. rewrite app_nil_r.
    repeat split; auto using decimal_digits_digits, decimal_digits_nonempty.
  - set (f := S f'). unfold fixed_chars. fold f.
    set (ds := pad_zeros (S f) (decimal_digits n)).
    assert (S f <= List.length ds)%nat as Hlen.
    { subst ds. unfold pad_zeros. rewrite length_app, repeat_length. lia. }
    assert (forallb is_digit ds = true) as Hd.
    { subst ds. unfold pad_zeros. rewrite forallb_app, forallb_repeat_zero.
      apply decimal_digits_digits. }
    rewrite <- (firstn_skipn (List.length ds - f) ds) in Hd.
    rewrite forallb_app in Hd. apply andb_true_iff in Hd. destruct Hd as [H1 H2].
    exists (firstn (List.length ds - f) ds), (skipn (List.length ds - f) ds).
    repeat split; auto.
    + intros E. apply (f_equal (@List.length ascii)) in E.
      rewrite length_firstn in E. simpl in E. lia.
    + rewrite length_skipn. lia.
Qed.

(** For a finite number below 10^21 in magnitude, [toFixed] gives exactly
    the fraction digits it was asked for. *)
Lemma fixed_string_shape x f :
  is_finite x = true -> (1e21 <=? abs x) = false ->
  fixed_shape (fixed_string x f) f.
Proof.
  intros Hfin Hsmall. unfold fixed_string.
  rewrite is_finite_spec in Hfin. rewrite Hsmall.
  destruct (Prim2SF x) as [sx|sx| |sx m e]; try discriminate.
  - destruct (fixed_chars_shape 0 f) as (ip & fp & E & P).
    exists [], ip, fp. rewrite E. simpl. tauto.
  - destruct (fixed_chars_shape (fixed_integer m e f) f) as (ip & fp & E & P).
    exists (if sx then chars "-" else []), ip, fp. rewrite E.
    split; [reflexivity|]. split; [destruct sx; auto|exact P].
Qed.

Lemma toFixed_returns x fractionDigits f :
  fraction_digits fractionDigits = Some f ->
  toFixed x fractionDigits = Returns (fixed_string x f).
Proof. intros E. unfold toFixed. rewrite E. reflexivity. Qed.

Lemma abs_abs x : abs (abs x) = abs x.
Proof.
  apply Prim2SF_inj. rewrite !abs_spec.
  destruct (Prim2SF x); reflexivity.
Qed.

Lemma abs_not_negative x : (abs x <? 0) = false.
Proof.
  rewrite ltb_spec, abs_spec.
  change (Prim2SF 0) with (S754_zero false).
  destruct (Prim2SF x) as [s|s| |s m e]; reflexivity.
Qed.

(** C4: [inchesToEngineeringStr] renders a measurement as sign, feet, an
    apostrophe and a hyphen, the remainder and an inch mark, where feet is
    floor(|v| / 12) and the remainder |v| - feet * 12 is fixed to the given
    precision (with exactly that many fraction digits when it is finite
    and below 10^21); for a negative measurement the output is one minus
    sign in front of the rendering of |v|; at precision 2, 0 gives 0'-0.00
    and -15 gives -1'-3.00, each followed by the inch mark. *)
Theorem inchesToEngineeringStr_format inches precision f :
  fraction_digits precision = Some f ->
  let feet := Math_floor (Math_abs inches / 12) in
  let remainder := Math_abs inches - feet * 12 in
  (exists inc,
     toFixed remainder precision = Returns inc /\
     inchesToEngineeringStr inches precision =
       Returns ((if (inches <? 0)%float then "-" else EmptyString)
                ++ Number_toString feet ++ "'-" ++ inc ++ dquote)%string /\
     (is_finite remainder = true -> (1e21 <=? abs remainder) = false ->
      fixed_shape inc f)) /\
  ((inches <? 0) = true ->
   inchesToEngineeringStr inches precision =
     (s <- inchesToEngineeringStr (Math_abs inches) precision ;;
      Returns ("-" ++ s)%string)) /\
  inchesToEngineeringStr 0 2 = Returns ("0'-0.00" ++ dquote)%string /\
  inchesToEngineeringStr (-15) 2 = Returns ("-1'-3.00" ++ dquote)%string.
Proof.
  intros Hp feet remainder.
  split; [|split; [|split; vm_compute; reflexivity]].
  - unfold inchesToEngineeringStr. fold feet. fold remainder.
    exists (fixed_string remainder f).
    rewrite (toFixed_returns _ _ _ Hp). cbn [bind].
    repeat split. apply fixed_string_shape.
  - intros Hneg. unfold inchesToEngineeringStr, Math_abs.
    rewrite Hneg, abs_abs, abs_not_negative.
    destruct (toFixed _ precision); reflexivity.
Qed.

(** -15 inches at precision 2: a minus sign in front of the rendering of
    15 inches. *)
Lemma inchesToEngineeringStr_format_witness :
  inchesToEngineeringStr (-15) 2 =
    (s <- inchesToEngineeringStr (Math_abs (-15)) 2 ;; Returns ("-" ++ s)%string).
Proof.
  exact (proj1 (proj2 (inchesToEngineeringStr_format (-15) 2 2%nat eq_refl))
               eq_refl).
Defined.

(** C6: the feet and the remainder are computed before the remainder is
    rounded, and not again after: 11.999 inches at precision 2 is rendered
    as 0'-12.00 and 47.996 inches as 3'-12.00 (each followed by the inch
    mark). *)
Theorem inchesToEngineeringStr_shows_twelve_inches :
  inchesToEngineeringStr 11.999 2 = Returns ("0'-12.00" ++ dquote)%string /\
  inchesToEngineeringStr 47.996 2 = Returns ("3'-12.00" ++ dquote)%string.
Proof. split; vm_compute; reflexivity. Qed.

(** C7, as the code has it: [formatValue] fixes the value converted to the
    display unit to exactly [precision] fraction digits and appends the
    inch mark for inches and a space and mm for millimetres; the value it
    is given is in inches, so 1 in millimetres at precision 1 gives
    25.4 mm, 25.4 gives 645.2 mm, and 1 in inches at precision 2 gives 1.00
    and the inch mark. *)
Theorem formatValue_format valueInInches unit precision f :
  fraction_digits precision = Some f ->
  is_finite (uiVal unit valueInInches) = true ->
  (1e21 <=? abs (uiVal unit valueInInches)) = false ->
  (exists s,
     toFixed (uiVal unit valueInInches) precision = Returns s /\
     fixed_shape s f /\
     formatValue valueInInches unit precision =
       Returns (s ++ match unit with unit_in => dquote | unit_mm => " mm" end)%string) /\
  formatValue 1 unit_mm 1 = Returns "25.4 mm" /\
  formatValue 25.4 unit_mm 1 = Returns "645.2 mm" /\
  formatValue 1 unit_in 2 = Returns ("1.00" ++ dquote)%string.
Proof.
  intros Hp F S.
  split; [|repeat split; vm_compute; reflexivity].
  exists (fixed_string (uiVal unit valueInInches) f).
  pose proof (toFixed_returns (uiVal unit valueInInches) _ _ Hp) as E.
  split; [exact E|]. split; [now apply fixed_string_shape|].
  destruct unit; unfold formatValue; cbn [uiVal] in E; rewrite E; reflexivity.
Qed.

(** 2.5 inches at precision 2. *)
Lemma formatValue_format_witness :
  exists s,
    toFixed (uiVal unit_in 2.5) 2 = Returns s /\
    fixed_shape s 2 /\
    formatValue 2.5 unit_in 2 = Returns (s ++ dquote)%string.
Proof.
  exact (proj1 (formatValue_format 2.5 unit_in 2 2%nat eq_refl eq_refl eq_refl)).
Defined.

(** C7, as stated, fails on its first example: 25.4 is taken as inches,
    and in millimetres at precision 1 it gives 645.2 mm, not 25.4 mm. *)
Lemma formatValue_25_4_mm :
  formatValue 25.4 unit_mm 1 = Returns "645.2 mm" /\
  formatValue 25.4 unit_mm 1 <> Returns "25.4 mm".
Proof.
  assert (formatValue 25.4 unit_mm 1 = Returns "645.2 mm") as E
    by (vm_compute; reflexivity).
  split; [exact E|]. rewrite E. discriminate.
Qed.

(* ================================================================== *)
(** ** The scene *)

(** C5, as the code has it: with the initial state (width 10, thickness
    2.5, center hole 2.5, inches, precision 2, zoom 2.5) the labels of the
    scene are WIDTH = 0'-10.00 for the width, 2.50 for the thickness and
    the diameter sign followed by 2.50 for the center hole, each ending in
    the inch mark. *)
Theorem default_scene_labels hypot_approx :
  (sc <- BlockCreator hypot_approx initial ;; Returns (dimension_labels sc)) =
    Returns [ ("WIDTH = 0'-10.00" ++ dquote)%string;
              ("2.50" ++ dquote)%string;
              (diameter_sign ++ "2.50" ++ dquote)%string ].
Proof. vm_compute. reflexivity. Qed.

(** C5, as stated, fails: the width label is not the bare measurement
    0'-10.00 with the inch mark, it carries the prefix WIDTH = before
    it. *)
Lemma default_width_label_is_prefixed :
  (sc <- BlockCreator hypot_scaled initial ;; Returns (hd EmptyString (dimension_labels sc))) =
    Returns ("WIDTH = 0'-10.00" ++ dquote)%string /\
  (sc <- BlockCreator hypot_scaled initial ;; Returns (hd EmptyString (dimension_labels sc))) <>
    Returns ("0'-10.00" ++ dquote)%string.
Proof.
  split; [vm_compute; reflexivity|].
  vm_compute. discriminate.
Qed.

(* ================================================================== *)
(** * Further properties of the page

    The order of binary64, bounds on rounded products, and what the
    clamping, the panels and the drawing guarantee in every reachable
    state. *)

(** *** The order of the specification as a lexicographic order *)

Module FloatOrder.

Local Open Scope Z_scope.

Lemma SFcompare_key x y :
  x <> S754_nan -> y <> S754_nan ->
  SFcompare x y = Some (lex_compare (sf_key x) (sf_key y)).
Proof.
  destruct x as [sx|sx| |sx mx ex], y as [sy|sy| |sy my ey];
    try congruence; intros _ _;
    try (destruct sx; reflexivity);
    try (destruct sy; reflexivity);
    try (destruct sx, sy; reflexivity).
  destruct sx, sy; try reflexivity.
  cbn [SFcompare sf_key lex_compare]. rewrite Z.compare_refl.
  rewrite Z.compare_opp.
  rewrite (Z.compare_antisym ex ey).
  destruct (ex ?= ey); reflexivity.
Qed.

Lemma lex_compare_le a b : lex_compare a b <> Gt <-> lex_le a b.
Proof.
  destruct a as [[a1 a2] a3], b as [[b1 b2] b3]. unfold lex_compare, lex_le.
  destruct (Z.compare_spec a1 b1); destruct (Z.compare_spec a2 b2);
    destruct (Z.compare_spec a3 b3); split; intros G; try lia; congruence.
Qed.

Lemma lex_compare_lt a b : lex_compare a b = Lt <-> lex_lt a b.
Proof.
  destruct a as [[a1 a2] a3], b as [[b1 b2] b3]. unfold lex_compare, lex_lt.
  destruct (Z.compare_spec a1 b1); destruct (Z.compare_spec a2 b2);
    destruct (Z.compare_spec a3 b3); split; intros G; try lia; congruence.
Qed.

Local Open Scope float_scope.

Lemma leb_iff x y :
  (x <=? y) = true <->
  is_nan x = false /\ is_nan y = false /\ lex_le (fkey x) (fkey y).
Proof.
  rewrite leb_spec, !not_nan_spec, <- lex_compare_le. unfold fkey, SFleb.
  split.
  - intros H.
    assert (Prim2SF x <> S754_nan /\ Prim2SF y <> S754_nan) as [Nx Ny].
    { destruct (Prim2SF x), (Prim2SF y); simpl in H;
        (discriminate H || (split; discriminate)). }
    rewrite (SFcompare_key _ _ Nx Ny) in H.
    repeat split; auto.
    destruct (lex_compare _ _); congruence.
  - intros (Nx & Ny & H). rewrite (SFcompare_key _ _ Nx Ny).
    destruct (lex_compare _ _); congruence.
Qed.

Lemma ltb_iff x y :
  (x <? y) = true <->
  is_nan x = false /\ is_nan y = false /\ lex_lt (fkey x) (fkey y).
Proof.
  rewrite ltb_spec, !not_nan_spec, <- lex_compare_lt. unfold fkey, SFltb.
  split.
  - intros H.
    assert (Prim2SF x <> S754_nan /\ Prim2SF y <> S754_nan) as [Nx Ny].
    { destruct (Prim2SF x), (Prim2SF y); simpl in H;
        (discriminate H || (split; discriminate)). }
    rewrite (SFcompare_key _ _ Nx Ny) in H.
    repeat split; auto.
    destruct (lex_compare _ _); congruence.
  - intros (Nx & Ny & H). rewrite (SFcompare_key _ _ Nx Ny), H. reflexivity.
Qed.

Lemma leb_trans x y z :
  (x <=? y) = true -> (y <=? z) = true -> (x <=? z) = true.
Proof.
  rewrite !leb_iff. intros (Nx & Ny & H1) (_ & Nz & H2).
  repeat split; auto.
  destruct (fkey x) as [[a1 a2] a3], (fkey y) as [[b1 b2] b3],
           (fkey z) as [[c1 c2] c3].
  unfold lex_le in *. lia.
Qed.

(** Two floats that compare equal are the same float, unless they are
    zeros. *)
Lemma sf_key_inj x y :
  x <> S754_nan -> y <> S754_nan -> (forall s, x <> S754_zero s) ->
  sf_key x = sf_key y -> x = y.
Proof.
  intros Nx Ny Zx.
  destruct x as [sx|sx| |sx mx ex], y as [sy|sy| |sy my ey];
    try congruence; try (exfalso; apply (Zx sx); reflexivity);
    try (destruct sx; discriminate);
    try (destruct sy; discriminate);
    try (destruct sx, sy; (discriminate || reflexivity)).
  destruct sx, sy; simpl; intros H; inversion H; subst; try reflexivity.
  f_equal. lia.
Qed.

Lemma leb_antisym x y :
  (x <=? y) = true -> (y <=? x) = true -> is_zero x = false -> x = y.
Proof.
  rewrite !leb_iff, is_zero_spec. intros (Nx & Ny & H1) (_ & _ & H2) Z.
  apply Prim2SF_inj. apply not_nan_spec in Nx, Ny.
  apply sf_key_inj; auto.
  - intros s E. rewrite E in Z. discriminate.
  - unfold fkey in *.
    destruct (sf_key (Prim2SF x)) as [[a1 a2] a3],
             (sf_key (Prim2SF y)) as [[b1 b2] b3].
    unfold lex_le in *.
    assert (a1 = b1 /\ a2 = b2 /\ a3 = b3) as (-> & -> & ->) by lia.
    reflexivity.
Qed.

End FloatOrder.

Import FloatOrder.

(* ================================================================== *)
(** ** More on [clamp] *)

Lemma ltb_leb_false a b : (a <? b) = true -> (b <=? a) = true -> False.
Proof.
  rewrite ltb_iff, leb_iff. intros (_ & _ & H1) (_ & _ & H2).
  destruct (fkey a) as [[a1 a2] a3], (fkey b) as [[b1 b2] b3].
  unfold lex_lt, lex_le in *. lia.
Qed.

Lemma pos_zero_is_zero x : is_pos_zero x = true -> is_zero x = true.
Proof.
  unfold is_pos_zero. rewrite classify_spec, is_zero_spec.
  unfold SF64classify, SFclassify.
  destruct (Prim2SF x) as [[]|[]| |[] m e]; try discriminate; try reflexivity;
    destruct (_ =? _)%Z; discriminate.
Qed.

Lemma neg_zero_is_zero x : is_neg_zero x = true -> is_zero x = true.
Proof.
  unfold is_neg_zero. rewrite classify_spec, is_zero_spec.
  unfold SF64classify, SFclassify.
  destruct (Prim2SF x) as [[]|[]| |[] m e]; try discriminate; try reflexivity;
    destruct (_ =? _)%Z; discriminate.
Qed.

Lemma not_zero_not_pos_zero x : is_zero x = false -> is_pos_zero x = false.
Proof.
  intros H. destruct (is_pos_zero x) eqn:E; [|reflexivity].
  apply pos_zero_is_zero in E. congruence.
Qed.

Lemma not_zero_not_neg_zero x : is_zero x = false -> is_neg_zero x = false.
Proof.
  intros H. destruct (is_neg_zero x) eqn:E; [|reflexivity].
  apply neg_zero_is_zero in E. congruence.
Qed.

(** [Math.min] and [Math.max] of two ordered numbers, the bound not a
    zero. *)
Lemma Math_min_le hi v :
  (v <=? hi) = true -> is_zero hi = false -> Math_min hi v = v.
Proof.
  intros L Z. destruct (leb_not_nan _ _ L) as [Nv Nh].
  unfold Math_min. rewrite Nh, Nv. cbn [orb].
  destruct (v <? hi) eqn:E; [reflexivity|].
  rewrite (not_zero_not_pos_zero _ Z), andb_false_r. cbn [orb].
  apply leb_antisym; auto. now apply not_ltb_leb.
Qed.

Lemma Math_min_ge hi v :
  (hi <=? v) = true -> is_zero hi = false -> Math_min hi v = hi.
Proof.
  intros L Z. destruct (leb_not_nan _ _ L) as [Nh Nv].
  unfold Math_min. rewrite Nh, Nv. cbn [orb].
  destruct (v <? hi) eqn:E; [exfalso; eapply ltb_leb_false; eauto|].
  rewrite (not_zero_not_pos_zero _ Z), andb_false_r. reflexivity.
Qed.

Lemma Math_max_le lo v :
  (lo <=? v) = true -> is_zero lo = false -> Math_max lo v = v.
Proof.
  intros L Z. destruct (leb_not_nan _ _ L) as [Nl Nv].
  unfold Math_max. rewrite Nl, Nv. cbn [orb].
  destruct (lo <? v) eqn:E; [reflexivity|].
  rewrite (not_zero_not_neg_zero _ Z), andb_false_r. cbn [orb].
  apply leb_antisym; auto. now apply not_ltb_leb.
Qed.

Lemma Math_max_ge lo v :
  (v <=? lo) = true -> is_zero lo = false -> Math_max lo v = lo.
Proof.
  intros L Z. destruct (leb_not_nan _ _ L) as [Nv Nl].
  unfold Math_max. rewrite Nl, Nv. cbn [orb].
  destruct (lo <? v) eqn:E; [exfalso; eapply ltb_leb_false; eauto|].
  rewrite (not_zero_not_neg_zero _ Z), andb_false_r. reflexivity.
Qed.

Lemma clamp_inside v lo hi :
  (lo <=? v) = true -> (v <=? hi) = true ->
  is_zero lo = false -> is_zero hi = false ->
  clamp v lo hi = v.
Proof.
  intros L H Zl Zh. unfold clamp.
  rewrite (Math_min_le _ _ H Zh). now apply Math_max_le.
Qed.

Lemma clamp_below v lo hi :
  (v <=? lo) = true -> (lo <=? hi) = true ->
  is_zero lo = false -> is_zero hi = false ->
  clamp v lo hi = lo.
Proof.
  intros L H Zl Zh. unfold clamp.
  rewrite (Math_min_le hi v (leb_trans _ _ _ L H) Zh).
  now apply Math_max_ge.
Qed.

Lemma clamp_above v lo hi :
  (hi <=? v) = true -> (lo <=? hi) = true ->
  is_zero lo = false -> is_zero hi = false ->
  clamp v lo hi = hi.
Proof.
  intros L H Zl Zh. unfold clamp.
  rewrite (Math_min_ge _ _ L Zh). now apply Math_max_le.
Qed.

Lemma clamp_nan v lo hi : is_nan v = true -> is_nan (clamp v lo hi) = true.
Proof.
  intros N. unfold clamp, Math_min, Math_max.
  rewrite N, orb_true_r.
  change (is_nan nan) with true. rewrite orb_true_r. reflexivity.
Qed.

(* ================================================================== *)
(** ** Upper bounds on rounded products *)

Module FloatBounds.

Local Open Scope Z_scope.

Lemma Zdigits2_upper m k : 0 < m -> m < 2 ^ k -> Zdigits2 m <= k.
Proof.
  intros Hm Hk.
  destruct (Zdigits2_bounds m Hm) as [Hl _].
  destruct (Z.le_gt_cases (Zdigits2 m) k) as [|Hgt]; [assumption|].
  assert (0 <= k).
  { destruct (Z.le_gt_cases 0 k); [assumption|].
    rewrite Z.pow_neg_r in Hk by lia. lia. }
  assert (2 ^ k <= 2 ^ (Zdigits2 m - 1)) by (apply Z.pow_le_mono_r; lia).
  lia.
Qed.

(** What [shr_fexp] leaves of a positive mantissa, when the exponent is
    not below the smallest one: the exponent the format asks for, and a
    mantissa with as many digits fewer as the exponent was raised. *)
Lemma shr_fexp_upper m e l r e' :
  0 < m -> emin <= e ->
  shr_fexp prec emax m e l = (r, e') ->
  e' = Z.max e (Zdigits2 m + e - prec) /\
  0 < shr_m r /\ shr_m r < 2 ^ (Zdigits2 m - (e' - e)).
Proof.
  intros Hm He H.
  destruct (shr_fexp_pos _ _ _ _ _ Hm He H) as (P & _ & _).
  destruct (shr_fexp_spec m e l r e' (Z.lt_le_incl _ _ Hm) H) as [E1 E2].
  cbv zeta in E1, E2.
  destruct (Zdigits2_bounds m Hm) as [_ Hu].
  assert (1 <= Zdigits2 m) as Hd
    by (apply (Zdigits2_lower m 0); [lia|simpl; lia]).
  unfold fexp, SpecFloat.emin, prec, emax in *.
  assert (e' = Z.max e (Zdigits2 m + e - 53)) as Ee by lia.
  split; [exact Ee|]. split; [exact P|].
  rewrite E1.
  set (n := Z.max 0 (Z.max (Zdigits2 m + e - 53) (3 - 1024 - 53) - e)) in *.
  assert (0 <= n <= Zdigits2 m) as Hn by (subst n; lia).
  replace (e' - e) with n by lia.
  apply Z.div_lt_upper_bound; [apply Z.pow_pos_nonneg; lia|].
  rewrite <- Z.pow_add_r by lia.
  replace (n + (Zdigits2 m - n)) with (Zdigits2 m) by lia. exact Hu.
Qed.

(** A positive mantissa whose exponent is neither below the smallest one
    nor, after rounding, above the largest one rounds to a finite number
    of the same sign; its exponent is bounded by the number of digits. *)
Lemma binary_round_aux_finite s m e l :
  0 < m -> emin <= e ->
  Z.max e (Zdigits2 m + e - 52) <= emax - prec ->
  exists m' e',
    binary_round_aux prec emax s m e l = S754_finite s m' e' /\
    e' <= Z.max e (Zdigits2 m + e - 52).
Proof.
  intros Hm He Hmax. unfold binary_round_aux.
  destruct (shr_fexp prec emax m e l) as [r1 e1] eqn:E1.
  destruct (shr_fexp_upper _ _ _ _ _ Hm He E1) as (Ee1 & P1 & U1).
  pose proof (round_nearest_even_bounds (shr_m r1) (loc_of_shr_record r1)) as Hr.
  set (m2 := round_nearest_even (shr_m r1) (loc_of_shr_record r1)) in *.
  destruct (shr_fexp prec emax m2 e1 loc_Exact) as [r2 e2] eqn:E2.
  assert (0 < m2) as P by lia.
  assert (emin <= e1) as He1 by (unfold prec in *; lia).
  destruct (shr_fexp_upper _ _ _ _ _ P He1 E2) as (Ee2 & P2 & _).
  assert (Zdigits2 m2 <= Zdigits2 m - (e1 - e) + 1) as D2.
  { apply Zdigits2_upper; [exact P|].
    assert (0 <= Zdigits2 m - (e1 - e)).
    { destruct (Z.le_gt_cases 0 (Zdigits2 m - (e1 - e))); [assumption|].
      rewrite Z.pow_neg_r in U1 by lia. lia. }
    rewrite Z.pow_add_r by lia. change (2 ^ 1) with 2. lia. }
  assert (e2 <= Z.max e (Zdigits2 m + e - 52)) as B
    by (unfold prec in *; lia).
  destruct (shr_m r2) as [|q|q]; try lia.
  assert ((e2 <=? emax - prec) = true) as L by (apply Z.leb_le; lia).
  rewrite L. exists q, e2. split; [reflexivity|exact B].
Qed.

(** The mantissa of a float has at most 53 digits. *)
Lemma valid_mantissa_lt m e :
  valid_binary (S754_finite false m e) = true -> Zpos m < 2 ^ 53.
Proof.
  cbn [valid_binary]. unfold bounded, canonical_mantissa. intros V.
  apply andb_true_iff in V. destruct V as [V _]. apply Z.eqb_eq in V.
  unfold fexp, SpecFloat.emin, prec, emax in V.
  destruct (digits2_pos_bounds m) as [_ Hu].
  eapply Z.lt_le_trans; [exact Hu|]. apply Z.pow_le_mono_r; lia.
Qed.

Lemma valid_mantissa_lt' s m e :
  valid_binary (S754_finite s m e) = true -> Zpos m < 2 ^ 53.
Proof. intros V. apply (valid_mantissa_lt m e). exact V. Qed.

(** The product of two floats with exponents [ex] and [ey], both
    mantissas positive: finite when the exponents leave room, with an
    exponent of at most [ex + ey + 54]. *)
Lemma SFmul_finite_bound sx mx ex sy my ey :
  valid_binary (S754_finite sx mx ex) = true ->
  valid_binary (S754_finite sy my ey) = true ->
  emin <= ex + ey -> ex + ey + 54 <= emax - prec ->
  exists m' e',
    SF64mul (S754_finite sx mx ex) (S754_finite sy my ey)
    = S754_finite (xorb sx sy) m' e' /\
    e' <= ex + ey + 54.
Proof.
  intros Vx Vy Hlo Hhi.
  apply valid_mantissa_lt' in Vx. apply valid_mantissa_lt' in Vy.
  unfold SF64mul, SFmul.
  assert (Zdigits2 (Zpos (mx * my)) <= 106) as D.
  { apply Zdigits2_upper; [lia|]. rewrite Pos2Z.inj_mul.
    change (2 ^ 106) with (2 ^ 53 * 2 ^ 53). nia. }
  destruct (binary_round_aux_finite (xorb sx sy) (Zpos (mx * my)) (ex + ey) loc_Exact)
    as (m' & e' & E & B); try lia.
  exists m', e'. split; [exact E|lia].
Qed.

End FloatBounds.

Import FloatBounds.

(** A float between two positive constants is positive and finite, with
    an exponent between theirs. *)
Lemma between_exponents x lo mlo elo hi mhi ehi :
  Prim2SF lo = S754_finite false mlo elo ->
  Prim2SF hi = S754_finite false mhi ehi ->
  (lo <=? x) = true -> (x <=? hi) = true ->
  exists m e, Prim2SF x = S754_finite false m e /\ (elo <= e <= ehi)%Z.
Proof.
  intros Elo Ehi. rewrite !leb_spec, Elo, Ehi.
  destruct (Prim2SF x) as [[]|[]| |[] m e]; intros L H;
    cbv beta iota delta [SFleb SFcompare] in L, H;
    try discriminate L; try discriminate H.
  exists m, e. split; [reflexivity|].
  revert L H.
  destruct (Z.compare_spec elo e) as [C1|C1|C1];
    destruct (Z.compare_spec e ehi) as [C2|C2|C2];
    intros L H; (lia || discriminate L || discriminate H).
Qed.

Lemma Prim2SF_tenth : Prim2SF 0.1 = S754_finite false 7205759403792794 (-56).
Proof. reflexivity. Qed.

Lemma Prim2SF_128 : Prim2SF 128 = S754_finite false 4503599627370496 (-45).
Proof. reflexivity. Qed.

Lemma Prim2SF_36 : Prim2SF 36 = S754_finite false 5066549580791808 (-47).
Proof. reflexivity. Qed.

Lemma Prim2SF_nine_tenths :
  Prim2SF 0.9 = S754_finite false 8106479329266893 (-53).
Proof. reflexivity. Qed.

(** A positive finite float with a small exponent is finite and below
    10^21 in magnitude. *)
Lemma small_exponent x m e :
  Prim2SF x = S754_finite false m e -> (e <= 0)%Z ->
  is_finite x = true /\ (1e21 <=? abs x) = false.
Proof.
  intros E He. rewrite is_finite_spec, leb_spec, abs_spec, E.
  split; [reflexivity|].
  change (Prim2SF 1e21) with (S754_finite false 7629394531250000 17).
  cbv beta iota delta [SFleb SFcompare SFabs].
  assert ((17 ?= e)%Z = Gt) as C by (apply Z.compare_gt_iff; lia).
  rewrite C. reflexivity.
Qed.

(** What is shown for a length between a tenth of an inch and 128
    inches, in either unit, is finite and below 10^21. *)
Lemma display_bounded u x :
  (0.1 <=? x) = true -> (x <=? 128) = true ->
  is_finite (uiVal u x) = true /\ (1e21 <=? abs (uiVal u x)) = false.
Proof.
  intros L H.
  destruct (between_exponents x _ _ _ _ _ _ Prim2SF_tenth Prim2SF_128 L H)
    as (m & e & E & He).
  destruct u; cbn [uiVal].
  - apply (small_exponent x m e E). lia.
  - pose proof (Prim2SF_valid x) as V. rewrite E in V.
    destruct (SFmul_finite_bound false m e false 7149464408450662 (-48) V eq_refl)
      as (m' & e' & P & B).
    + unfold SpecFloat.emin, prec, emax. lia.
    + unfold prec, emax. lia.
    + apply (small_exponent _ m' e'); [|lia].
      rewrite mul_spec, E, Prim2SF_25_4. exact P.
Qed.

(** Nine tenths of a width between 2 and 36 is at most 128. *)
Lemma nine_tenths_upper w :
  (2 <=? w) = true -> (w <=? 36) = true -> (w * 0.9 <=? 128) = true.
Proof.
  intros L H.
  destruct (between_exponents w _ _ _ _ _ _ Prim2SF_2 Prim2SF_36 L H)
    as (m & e & E & He).
  pose proof (Prim2SF_valid w) as V. rewrite E in V.
  destruct (SFmul_finite_bound false m e false 8106479329266893 (-53) V eq_refl)
    as (m' & e' & P & B).
  - unfold SpecFloat.emin, prec, emax. lia.
  - unfold prec, emax. lia.
  - rewrite leb_spec, mul_spec, E, Prim2SF_nine_tenths, P, Prim2SF_128.
    cbv beta iota delta [SFleb SFcompare xorb].
    assert ((e' ?= -45)%Z = Lt) as C by (apply Z.compare_lt_iff; lia).
    rewrite C. reflexivity.
Qed.

(** Every computed parameter lies between a tenth of an inch and 128
    inches. *)
Lemma in_range_displayable c k :
  in_range c -> (0.1 <=? field c k) = true /\ (field c k <=? 128) = true.
Proof.
  intros ((W1 & W2) & (T1 & T2) & (H1 & H2)).
  destruct k; cbn [field].
  - split; [apply (leb_trans _ 2); [reflexivity|exact W1]
           |apply (leb_trans _ 36); [exact W2|reflexivity]].
  - split; [exact T1|apply (leb_trans _ 10); [exact T2|reflexivity]].
  - split; [exact H1|].
    apply (leb_trans _ (width_in c * 0.9)); [exact H2|].
    now apply nine_tenths_upper.
Qed.

(* ================================================================== *)
(** ** What every reachable state satisfies *)

Lemma fraction_digits_small q :
  (0 <=? q) = true -> (q <=? 4) = true ->
  exists f, fraction_digits q = Some f /\ (f <= 4)%nat.
Proof.
  rewrite !leb_iff. unfold fkey. intros (_ & _ & L) (_ & _ & H).
  pose proof (Prim2SF_valid q) as V.
  change (Prim2SF 0) with (S754_zero false) in L.
  change (Prim2SF 4) with (S754_finite false 4503599627370496 (-50)) in H.
  unfold fraction_digits, ToIntegerOrInfinity.
  destruct (Prim2SF q) as [s|[]| |[] m e]; cbn [sf_key lex_le] in L, H;
    try lia.
  - exists 0%nat. split; [reflexivity|lia].
  - exists 0%nat. split; [reflexivity|lia].
  - apply FloatBounds.valid_mantissa_lt in V.
    cbn [cond_Zopp].
    assert (e <= -50)%Z as He by lia.
    rewrite Z.shiftl_div_pow2 by lia.
    assert (2 ^ 50 <= 2 ^ (- e))%Z as P by (apply Z.pow_le_mono_r; lia).
    assert (0 < 2 ^ (- e))%Z as P0 by (apply Z.pow_pos_nonneg; lia).
    assert (0 <= Zpos m / 2 ^ (- e) <= 4)%Z as [Q0 Q4].
    { split; [apply Z.div_pos; lia|].
      apply Z.div_le_upper_bound; [exact P0|].
      destruct (Z.eq_dec e (-50)) as [->|Ne].
      - change (2 ^ (- -50))%Z with 1125899906842624%Z. lia.
      - assert (2 ^ 51 <= 2 ^ (- e))%Z by (apply Z.pow_le_mono_r; lia).
        change (2 ^ 53)%Z with (4 * 2 ^ 51)%Z in V. lia. }
    destruct (Z.ltb_spec (Zpos m / 2 ^ (- e)) 0); [lia|].
    destruct (Z.ltb_spec 100 (Zpos m / 2 ^ (- e))); [lia|].
    cbn [orb]. eexists. split; [reflexivity|lia].
Qed.

Lemma or_else_not_nan a b : is_nan b = false -> is_nan (or_else a b) = false.
Proof.
  intros H. unfold or_else, ToBoolean.
  destruct (is_nan a) eqn:N.
  - rewrite orb_true_r. exact H.
  - destruct (is_zero a); [exact H|exact N].
Qed.

Lemma step_precision_ok st a :
  precision_ok st = true -> precision_ok (step st a) = true.
Proof.
  intros H. destruct a; try exact H.
  unfold precision_ok, step, setPrecision. cbn [precision].
  destruct (clamp_spec (or_else (Number v) 0) 0 4) as (_ & L & U);
    [apply or_else_not_nan; reflexivity|reflexivity|].
  rewrite L, U. reflexivity.
Qed.

Lemma run_precision_ok actions : forall st,
  precision_ok st = true -> precision_ok (run actions st) = true.
Proof.
  unfold run.
  induction actions as [|a rest IH]; intros st H; simpl; [exact H|].
  apply IH, step_precision_ok, H.
Qed.

Lemma precision_ok_digits st :
  precision_ok st = true ->
  exists f, fraction_digits (precision st) = Some f /\ (f <= 4)%nat.
Proof.
  unfold precision_ok. intros H. apply andb_true_iff in H.
  destruct H as [L U]. now apply fraction_digits_small.
Qed.

Lemma run_state_ok actions : state_ok (run actions initial).
Proof.
  split; [apply run_stored_ok|apply run_precision_ok]; reflexivity.
Qed.

Lemma formatValue_shape st k f :
  stored_ok (params st) = true ->
  fraction_digits (precision st) = Some f ->
  exists s,
    formatValue (field (p (computed st)) k) (unit st) (precision st)
    = Returns (s ++ unit_suffix (unit st))%string /\
    fixed_shape s f.
Proof.
  intros Hok Hf.
  destruct (in_range_displayable _ k (computed_in_range st Hok)) as [L U].
  destruct (display_bounded (unit st) _ L U) as [F S].
  exists (fixed_string (uiVal (unit st) (field (p (computed st)) k)) f).
  split; [|now apply fixed_string_shape].
  pose proof (toFixed_returns (uiVal (unit st) (field (p (computed st)) k)) _ _ Hf) as E.
  unfold formatValue. destruct (unit st); cbn [uiVal unit_suffix] in *;
    rewrite E; reflexivity.
Qed.

Lemma texts_return st f :
  fraction_digits (precision st) = Some f ->
  exists wt tt ct,
    width_text st = Returns wt /\
    thickness_text st = Returns tt /\
    center_hole_text st = Returns ct.
Proof.
  intros Hf.
  unfold width_text, thickness_text, center_hole_text,
    inchesToEngineeringStr, formatValue.
  destruct (unit st); rewrite !(toFixed_returns _ _ _ Hf); cbn [bind];
    do 3 eexists; repeat split; reflexivity.
Qed.

Lemma BlockCreator_returns hypot_approx st f :
  fraction_digits (precision st) = Some f ->
  exists sc,
    BlockCreator hypot_approx st = Returns sc /\
    List.length (dimensions sc) = if showDims st then 3%nat else 0%nat.
Proof.
  intros Hf. destruct (texts_return st f Hf) as (wt & tt & ct & E1 & E2 & E3).
  unfold BlockCreator. rewrite E1, E2, E3.
  destruct (showDims st); cbn [bind]; eexists; split; reflexivity.
Qed.

(** The drawing depends on the stored parameters, the zoom and the
    dimension switch only. *)
Lemma BlockCreator_geometry hypot_approx st st' sc sc' :
  params st = params st' -> zoom st = zoom st' -> showDims st = showDims st' ->
  BlockCreator hypot_approx st = Returns sc ->
  BlockCreator hypot_approx st' = Returns sc' ->
  scene_geometry sc = scene_geometry sc'.
Proof.
  intros Ep Ez Es.
  assert (computed st = computed st') as Ec
    by (unfold computed; rewrite Ep, Ez; reflexivity).
  unfold BlockCreator. rewrite Ec, Es.
  destruct (showDims st'); cbn [bind].
  - destruct (width_text st); cbn [bind]; [|discriminate].
    destruct (thickness_text st); cbn [bind]; [|discriminate].
    destruct (center_hole_text st); cbn [bind]; [|discriminate].
    destruct (width_text st'); cbn [bind]; [|discriminate].
    destruct (thickness_text st'); cbn [bind]; [|discriminate].
    destruct (center_hole_text st'); cbn [bind]; [|discriminate].
    intros H H'. inversion H; inversion H'. reflexivity.
  - intros H H'. inversion H; inversion H'. reflexivity.
Qed.

Lemma pos_not_zero x : (0 <? x) = true -> is_zero x = false.
Proof.
  rewrite ltb_spec, is_zero_spec.
  change (Prim2SF 0) with (S754_zero false).
  destruct (Prim2SF x) as [[]|[]| |[] m e]; intros H;
    (discriminate H || reflexivity).
Qed.

(* ================================================================== *)
(** ** Further properties of the page *)

(** X1: [clamp] returns a number within the bounds it is given, for every
    value that is not NaN and bounds in order. *)
Theorem clamp_within_bounds v min max :
  is_nan v = false -> (min <=? max) = true ->
  (min <=? clamp v min max) = true /\ (clamp v min max <=? max) = true.
Proof.
  intros Hv Hb. destruct (clamp_spec v min max Hv Hb) as (_ & L & U).
  split; assumption.
Qed.

(** Infinity between 2 and 36. *)
Lemma clamp_within_bounds_witness :
  (2 <=? clamp infinity 2 36) = true /\ (clamp infinity 2 36 <=? 36) = true.
Proof. exact (clamp_within_bounds infinity 2 36 eq_refl eq_refl). Defined.

(** X2: with bounds in order, neither of them a zero, [clamp] returns the
    value itself when it lies within the bounds, the lower bound when it
    is at or below it and the upper bound when it is at or above it. *)
Theorem clamp_cases v min max :
  (min <=? max) = true -> is_zero min = false -> is_zero max = false ->
  ((min <=? v) = true -> (v <=? max) = true -> clamp v min max = v) /\
  ((v <=? min) = true -> clamp v min max = min) /\
  ((max <=? v) = true -> clamp v min max = max).
Proof.
  intros Hb Zl Zh. repeat split; intros.
  - now apply clamp_inside.
  - now apply clamp_below.
  - now apply clamp_above.
Qed.

(** 10, 1 and 100 between 2 and 36. *)
Lemma clamp_cases_witness :
  clamp 10 2 36 = 10 /\ clamp 1 2 36 = 2 /\ clamp 100 2 36 = 36.
Proof.
  pose proof (clamp_cases 10 2 36 eq_refl eq_refl eq_refl) as A.
  pose proof (clamp_cases 1 2 36 eq_refl eq_refl eq_refl) as B.
  pose proof (clamp_cases 100 2 36 eq_refl eq_refl eq_refl) as C.
  exact (conj (proj1 A eq_refl eq_refl)
              (conj (proj1 (proj2 B) eq_refl) (proj2 (proj2 C) eq_refl))).
Defined.

(** X3: [clamp] does not remove NaN: the clamped NaN is NaN, whatever the
    bounds. *)
Theorem clamp_keeps_nan v min max :
  is_nan v = true -> is_nan (clamp v min max) = true.
Proof. apply clamp_nan. Qed.

Lemma clamp_keeps_nan_witness : is_nan (clamp nan 2 36) = true.
Proof. exact (clamp_keeps_nan nan 2 36 eq_refl). Defined.

(** X4: no sequence of actions stores NaN in a parameter. *)
Theorem no_nan_is_ever_stored actions :
  let s := params (run actions initial) in
  is_nan (width_in s) = false /\
  is_nan (thickness_in s) = false /\
  is_nan (centerHoleDia_in s) = false.
Proof.
  intros s. apply stored_ok_fields. apply run_stored_ok. reflexivity.
Qed.

(** X5: after any sequence of actions the precision is a number from 0 to
    4, so [toFixed] accepts it, with at most 4 fraction digits. *)
Theorem precision_is_always_usable actions :
  let q := precision (run actions initial) in
  (0 <=? q) = true /\ (q <=? 4) = true /\
  exists f, fraction_digits q = Some f /\ (f <= 4)%nat.
Proof.
  intros q.
  pose proof (run_precision_ok actions initial eq_refl) as H.
  pose proof (precision_ok_digits _ H) as D.
  unfold precision_ok in H. apply andb_true_iff in H. tauto.
Qed.

Lemma BlockCreator_renders hypot_approx st :
  precision_ok st = true ->
  exists sc,
    BlockCreator hypot_approx st = Returns sc /\
    List.length (dimensions sc) = if showDims st then 3%nat else 0%nat.
Proof.
  intros H. destruct (precision_ok_digits st H) as (f & Hf & _).
  exact (BlockCreator_returns hypot_approx st f Hf).
Qed.

(** X6: after any sequence of actions the component renders: no label
    raises a RangeError, and the scene has the three dimension elements
    when dimensions are shown and none otherwise. *)
Theorem BlockCreator_always_renders hypot_approx actions :
  let st := run actions initial in
  exists sc,
    BlockCreator hypot_approx st = Returns sc /\
    List.length (dimensions sc) = if showDims st then 3%nat else 0%nat.
Proof.
  intros st.
  exact (BlockCreator_renders hypot_approx st
           (run_precision_ok actions initial eq_refl)).
Qed.

(** X7: after any sequence of actions the right panel lists the three
    computed parameters, each formatted with exactly as many fraction
    digits as the integer part of the precision, followed by the suffix of
    the unit. *)
Theorem properties_show_configured_digits actions :
  let st := run actions initial in
  let c := p (computed st) in
  exists f w t h,
    fraction_digits (precision st) = Some f /\
    toFixed (uiVal (unit st) (width_in c)) (precision st) = Returns w /\
    toFixed (uiVal (unit st) (thickness_in c)) (precision st) = Returns t /\
    toFixed (uiVal (unit st) (centerHoleDia_in c)) (precision st) = Returns h /\
    properties st =
      Returns [ ("Width", w ++ unit_suffix (unit st));
                ("Thickness", t ++ unit_suffix (unit st));
                ("Center Hole " ++ O_stroke, h ++ unit_suffix (unit st)) ]%string /\
    fixed_shape w f /\ fixed_shape t f /\ fixed_shape h f.
Proof.
  intros st c. destruct (run_state_ok actions) as [Hs Hp]. fold st in Hs, Hp.
  destruct (precision_ok_digits st Hp) as (f & Hf & _).
  pose proof (computed_in_range st Hs) as R. fold c in R.
  assert (forall k,
            let s := fixed_string (uiVal (unit st) (field c k)) f in
            toFixed (uiVal (unit st) (field c k)) (precision st) = Returns s /\
            formatValue (field c k) (unit st) (precision st)
              = Returns (s ++ unit_suffix (unit st))%string /\
            fixed_shape s f) as G.
  { intros k s.
    destruct (in_range_displayable _ k R) as [L U].
    destruct (display_bounded (unit st) _ L U) as [F S].
    pose proof (toFixed_returns (uiVal (unit st) (field c k)) _ _ Hf) as E.
    split; [exact E|]. split; [|now apply fixed_string_shape].
    unfold formatValue. destruct (unit st); cbn [uiVal unit_suffix] in *;
      rewrite E; reflexivity. }
  destruct (G k_width_in) as (Tw & Ew & Sw).
  destruct (G k_thickness_in) as (Tt & Et & St).
  destruct (G k_centerHoleDia_in) as (Th & Eh & Sh).
  cbn [field] in *.
  exists f. eexists. eexists. eexists.
  split; [exact Hf|]. split; [exact Tw|]. split; [exact Tt|].
  split; [exact Th|]. split; [|tauto].
  unfold properties. fold c. cbn [map_outcome field]. rewrite Ew, Et, Eh.
  reflexivity.
Qed.

(** X8: after any sequence of actions no slider has an empty range, and
    in inches the position of each slider is at most its maximum. *)
Theorem controls_have_ranges actions :
  let st := run actions initial in
  Forall (fun c =>
            (ctl_min c <=? ctl_max c) = true /\
            (unit st = unit_in -> (ctl_value c <=? ctl_max c) = true))
         (controls st).
Proof.
  intros st. pose proof (run_stored_ok actions initial eq_refl) as Hs.
  fold st in Hs.
  destruct (computed_in_range st Hs) as ((W1 & W2) & (T1 & T2) & (H1 & H2)).
  destruct (leb_not_nan _ _ W1) as [_ Nw].
  unfold controls. cbn [map].
  destruct (unit st); cbn [uiVal field]; repeat constructor;
    try reflexivity; try discriminate; try (intros _; assumption).
  - destruct (Math_max_spec 0.25 (width_in (p (computed st)) * 0.9))
      as (_ & L & _); [reflexivity| |exact L].
    exact (proj2 (leb_not_nan _ _ (nine_tenths_lower _ W1))).
  - intros _.
    destruct (Math_max_spec 0.25 (width_in (p (computed st)) * 0.9))
      as (_ & _ & L & _); [reflexivity| |].
    + exact (proj2 (leb_not_nan _ _ (nine_tenths_lower _ W1))).
    + exact (leb_trans _ _ _ H2 L).
  - destruct (Math_max_spec 6.35 (width_in (p (computed st)) * 25.4 * 0.9))
      as (_ & L & _); [reflexivity| |exact L].
    apply (mul_not_nan _ _ _ _ _ Prim2SF_nine_tenths).
    apply (mul_not_nan _ _ _ _ _ Prim2SF_25_4). exact Nw.
Qed.

(** X9: after any sequence of actions the sliders are those of the width,
    the thickness and the center hole, in this order; the position of
    each is the computed parameter in the display unit, and the readout
    beside it is that position with exactly 2 fraction digits and the
    inch mark in inches, with exactly 1 fraction digit and mm in
    millimetres. *)
Theorem control_readouts_have_fixed_digits actions :
  let st := run actions initial in
  let c := p (computed st) in
  let digits := match unit st with unit_in => 2 | unit_mm => 1 end in
  let f := match unit st with unit_in => 2%nat | unit_mm => 1%nat end in
  map ctl_key (controls st) = [k_width_in; k_thickness_in; k_centerHoleDia_in] /\
  Forall (fun ctl =>
            ctl_value ctl = uiVal (unit st) (field c (ctl_key ctl)) /\
            exists s,
              toFixed (ctl_value ctl) digits = Returns s /\
              fixed_shape s f /\
              ctl_readout ctl = Returns (s ++ unit_suffix (unit st))%string)
         (controls st).
Proof.
  intros st c digits f.
  pose proof (run_stored_ok actions initial eq_refl) as Hs.
  fold st in Hs.
  pose proof (computed_in_range st Hs) as R. fold c in R.
  split; [reflexivity|].
  assert (forall k,
            let v := uiVal (unit st) (field c k) in
            v = uiVal (unit st) (field c k) /\
            exists s,
              toFixed v digits = Returns s /\
              fixed_shape s f /\
              (if match unit st with unit_in => true | unit_mm => false end
               then s <- toFixed v 2 ;; Returns (s ++ dquote)%string
               else s <- toFixed v 1 ;; Returns (s ++ " mm")%string)
              = Returns (s ++ unit_suffix (unit st))%string)
    as G.
  { intros k v. split; [reflexivity|].
    destruct (in_range_displayable _ k R) as [L U].
    destruct (display_bounded (unit st) _ L U) as [F S]. fold v in F, S.
    subst digits f. destruct (unit st); cbn [unit_suffix].
    - rewrite (toFixed_returns v 2 2%nat eq_refl). cbn [bind].
      eexists. split; [reflexivity|]. split; [now apply fixed_string_shape|].
      reflexivity.
    - rewrite (toFixed_returns v 1 1%nat eq_refl). cbn [bind].
      eexists. split; [reflexivity|]. split; [now apply fixed_string_shape|].
      reflexivity. }
  unfold controls. fold c. cbn [map ctl_readout ctl_value ctl_key].
  repeat constructor; apply G.
Qed.

(** X10: after any sequence of actions, changing the unit or the
    precision leaves everything the scene draws where it is; only the
    label texts change. *)
Theorem display_settings_leave_geometry hypot_approx actions u v :
  let st := run actions initial in
  (sc <- BlockCreator hypot_approx (setPrecision v (setUnit u st)) ;;
   Returns (scene_geometry sc))
  = (sc <- BlockCreator hypot_approx st ;; Returns (scene_geometry sc)).
Proof.
  intros st.
  assert (precision_ok st = true) as P
    by exact (run_precision_ok actions initial eq_refl).
  destruct (BlockCreator_renders hypot_approx st P) as (sc & E & _).
  destruct (BlockCreator_renders hypot_approx (setPrecision v (setUnit u st))
              (step_precision_ok _ (SetPrecision v)
                 (step_precision_ok st (SetUnit u) P)))
    as (sc' & E' & _).
  rewrite E, E'. cbn [bind]. f_equal.
  exact (BlockCreator_geometry hypot_approx (setPrecision v (setUnit u st)) st
           sc' sc eq_refl eq_refl eq_refl E' E).
Qed.

(** X11: the constraints are idempotent: computing from the computed
    parameters gives them back. *)
Theorem computed_is_idempotent st :
  stored_ok (params st) = true ->
  p (computed (with_params st (p (computed st)))) = p (computed st).
Proof.
  intros Hs.
  destruct (computed_in_range st Hs) as ((W1 & W2) & (T1 & T2) & (H1 & H2)).
  rewrite (computed_p (with_params st _)). cbn [params with_params].
  set (c := p (computed st)) in *.
  rewrite (clamp_inside _ _ _ W1 W2 eq_refl eq_refl).
  rewrite (clamp_inside _ _ _ T1 T2 eq_refl eq_refl).
  rewrite (clamp_inside _ _ _ H1 H2 eq_refl).
  - destruct c; reflexivity.
  - apply pos_not_zero, tenth_le_pos, nine_tenths_lower, W1.
Qed.

(** The stored width 100: computing again from (36, 2.5, 2.5) gives
    (36, 2.5, 2.5). *)
Lemma computed_is_idempotent_witness :
  let st := setParam k_width_in (VString "100") initial in
  p (computed (with_params st (p (computed st)))) = p (computed st).
Proof.
  exact (computed_is_idempotent (setParam k_width_in (VString "100") initial)
           eq_refl).
Defined.

(* ================================================================== *)
(** ** Exact operations: signs, quotients of a number by itself, products
       by one *)

Module FloatExact.

Local Open Scope Z_scope.

Lemma binary_round_aux_opp s m e l :
  binary_round_aux prec emax (negb s) m e l
  = SFopp (binary_round_aux prec emax s m e l).
Proof.
  unfold binary_round_aux.
  destruct (shr_fexp prec emax m e l) as [r1 e1].
  destruct (shr_fexp prec emax _ e1 loc_Exact) as [r2 e2].
  destruct (shr_m r2); try reflexivity.
  destruct (e2 <=? emax - prec); reflexivity.
Qed.

Lemma xorb_negb_l a b : xorb (negb a) b = negb (xorb a b).
Proof. destruct a, b; reflexivity. Qed.

Lemma SFmul_opp_l x y : SF64mul (SFopp x) y = SFopp (SF64mul x y).
Proof.
  destruct x as [sx|sx| |sx mx ex], y as [sy|sy| |sy my ey];
    cbn [SF64mul SFmul SFopp]; try reflexivity;
    try (rewrite xorb_negb_l; reflexivity).
  unfold SF64mul. cbn [SFmul]. rewrite xorb_negb_l.
  apply binary_round_aux_opp.
Qed.

Lemma SFdiv_opp_l x y : SF64div (SFopp x) y = SFopp (SF64div x y).
Proof.
  destruct x as [sx|sx| |sx mx ex], y as [sy|sy| |sy my ey];
    cbn [SF64div SFdiv SFopp]; try reflexivity;
    try (rewrite xorb_negb_l; reflexivity).
  unfold SF64div. cbn [SFdiv].
  destruct (SFdiv_core_binary prec emax (Zpos mx) ex (Zpos my) ey) as [[mz ez] lz].
  rewrite xorb_negb_l. apply binary_round_aux_opp.
Qed.

(** Shifting out zeros only leaves an exact record. *)
Lemma shr_1_exact c :
  0 <= c ->
  shr_1 (Build_shr_record (2 * c) false false) = Build_shr_record c false false.
Proof.
  destruct c as [|q|q]; try lia; reflexivity.
Qed.

Lemma iter_pos_shr_1_exact n : forall c,
  0 <= c ->
  iter_pos shr_1 n (Build_shr_record (c * 2 ^ Zpos n) false false)
  = Build_shr_record c false false.
Proof.
  induction n as [n IH|n IH|]; intros c Hc; cbn [iter_pos].
  - assert (0 < 2 ^ Zpos n) by (apply Z.pow_pos_nonneg; lia).
    replace (c * 2 ^ Zpos n~1) with (2 * (c * 2 ^ Zpos n * 2 ^ Zpos n)).
    + rewrite shr_1_exact by nia. rewrite IH by nia. apply IH, Hc.
    + rewrite (Pos2Z.inj_xI n).
      replace (2 * Zpos n + 1) with (1 + Zpos n + Zpos n) by lia.
      rewrite !Z.pow_add_r by lia. change (2 ^ 1) with 2. ring.
  - assert (0 < 2 ^ Zpos n) by (apply Z.pow_pos_nonneg; lia).
    replace (c * 2 ^ Zpos n~0) with (c * 2 ^ Zpos n * 2 ^ Zpos n).
    + rewrite IH by nia. apply IH, Hc.
    + rewrite (Pos2Z.inj_xO n).
      replace (2 * Zpos n) with (Zpos n + Zpos n) by lia.
      rewrite Z.pow_add_r by lia. ring.
  - replace (c * 2 ^ 1) with (2 * c) by (change (2 ^ 1) with 2; ring).
    apply shr_1_exact, Hc.
Qed.

Lemma Zdigits2_unique m d :
  0 < m -> 2 ^ (d - 1) <= m < 2 ^ d -> Zdigits2 m = d.
Proof.
  intros Hm [Hl Hu].
  pose proof (FloatBounds.Zdigits2_upper m d Hm Hu) as U.
  destruct (Z.le_gt_cases d (Zdigits2 m)) as [|G]; [lia|].
  destruct (Zdigits2_bounds m Hm) as [_ Hu'].
  assert (0 <= Zdigits2 m) by (destruct m; simpl; lia).
  assert (2 ^ Zdigits2 m <= 2 ^ (d - 1)) by (apply Z.pow_le_mono_r; lia).
  lia.
Qed.

Lemma Zdigits2_mul_pow2 m k :
  0 <= k -> Zdigits2 (Zpos m * 2 ^ k) = Zdigits2 (Zpos m) + k.
Proof.
  intros Hk.
  assert (0 < 2 ^ k) as P by (apply Z.pow_pos_nonneg; lia).
  destruct (Zdigits2_bounds (Zpos m) ltac:(lia)) as [Hl Hu].
  assert (1 <= Zdigits2 (Zpos m)) by (simpl; lia).
  apply Zdigits2_unique; [nia|].
  replace (Zdigits2 (Zpos m) + k - 1) with (Zdigits2 (Zpos m) - 1 + k) by lia.
  rewrite !Z.pow_add_r by lia. nia.
Qed.

(** A canonical mantissa with [k] zeros appended is shifted back to
    itself, exactly. *)
Lemma shr_fexp_exact m e k :
  0 <= k ->
  canonical_mantissa prec emax m e = true ->
  shr_fexp prec emax (Zpos m * 2 ^ k) (e - k) loc_Exact
  = (Build_shr_record (Zpos m) false false, e).
Proof.
  intros Hk C. unfold canonical_mantissa in C. apply Z.eqb_eq in C.
  unfold shr_fexp. rewrite Zdigits2_mul_pow2 by exact Hk.
  replace (Zdigits2 (Zpos m) + k + (e - k)) with (Zpos (digits2_pos m) + e)
    by (cbn [Zdigits2]; lia).
  rewrite C. replace (e - (e - k)) with k by lia.
  cbn [shr_record_of_loc]. unfold shr.
  destruct k as [|q|q]; try lia.
  - rewrite Z.mul_1_r, Z.sub_0_r. reflexivity.
  - rewrite iter_pos_shr_1_exact by lia. f_equal. lia.
Qed.

Lemma binary_round_aux_exact s m e k :
  0 <= k -> bounded prec emax m e = true ->
  binary_round_aux prec emax s (Zpos m * 2 ^ k) (e - k) loc_Exact
  = S754_finite s m e.
Proof.
  intros Hk B. unfold bounded in B. apply andb_true_iff in B.
  destruct B as [C L].
  unfold binary_round_aux.
  rewrite (shr_fexp_exact m e k Hk C). cbn [shr_m loc_of_shr_record round_nearest_even].
  pose proof (shr_fexp_exact m e 0 (Z.le_refl 0) C) as E0.
  rewrite Z.mul_1_r, Z.sub_0_r in E0. rewrite E0. cbn [shr_m].
  rewrite L. reflexivity.
Qed.

(** One times a float is that float. *)
Lemma SFmul_one_l x :
  valid_binary x = true ->
  SF64mul (S754_finite false 4503599627370496 (-52)) x = x.
Proof.
  destruct x as [sx|sx| |sx mx ex]; try reflexivity.
  intros V. unfold SF64mul. cbn [SFmul xorb].
  rewrite Pos2Z.inj_mul, Z.mul_comm.
  change (Zpos 4503599627370496) with (2 ^ 52).
  replace (-52 + ex) with (ex - 52) by lia.
  apply binary_round_aux_exact; [lia|exact V].
Qed.

(** A finite non-zero float divided by itself is one. *)
Lemma SFdiv_self s m e :
  SF64div (S754_finite s m e) (S754_finite s m e)
  = S754_finite false 4503599627370496 (-52).
Proof.
  unfold SF64div. cbn [SFdiv]. unfold SFdiv_core_binary. cbv zeta.
  rewrite !Z.sub_diag.
  change (fexp prec emax 0) with (-53).
  change (Z.min (-53) 0) with (-53).
  change (0 - -53) with 53. cbv iota.
  rewrite Z.shiftl_mul_pow2 by lia. rewrite Z.mul_comm.
  assert (Z.div_eucl (2 ^ 53 * Zpos m) (Zpos m) = (2 ^ 53, 0)) as E.
  { pose proof (Z.div_mul (2 ^ 53) (Zpos m) ltac:(lia)) as D.
    pose proof (Z.mod_mul (2 ^ 53) (Zpos m) ltac:(lia)) as M.
    unfold Z.div, Z.modulo in D, M.
    destruct (Z.div_eucl (2 ^ 53 * Zpos m) (Zpos m)) as [q r].
    subst. reflexivity. }
  rewrite E.
  assert (new_location (Zpos m) 0 = loc_Exact) as N
    by (unfold new_location; destruct (Z.even (Zpos m)); reflexivity).
  rewrite N. destruct s; vm_compute; reflexivity.
Qed.

End FloatExact.

Import FloatExact.

Lemma mul_opp_l a b : - a * b = - (a * b).
Proof.
  apply Prim2SF_inj. rewrite mul_spec, !opp_spec, mul_spec.
  apply SFmul_opp_l.
Qed.

Lemma div_opp_l a b : - a / b = - (a / b).
Proof.
  apply Prim2SF_inj. rewrite div_spec, !opp_spec, div_spec.
  apply SFdiv_opp_l.
Qed.

Lemma mul_one_l x : 1 * x = x.
Proof.
  apply Prim2SF_inj. rewrite mul_spec.
  change (Prim2SF 1) with (S754_finite false 4503599627370496 (-52)).
  apply SFmul_one_l, Prim2SF_valid.
Qed.

Lemma finite_nonzero_spec x :
  is_finite x = true -> is_zero x = false ->
  exists s m e, Prim2SF x = S754_finite s m e.
Proof.
  rewrite is_finite_spec, is_zero_spec.
  destruct (Prim2SF x) as [s|s| |s m e]; try discriminate. eauto.
Qed.

Lemma div_self x : is_finite x = true -> is_zero x = false -> x / x = 1.
Proof.
  intros F Z. destruct (finite_nonzero_spec x F Z) as (s & m & e & E).
  apply Prim2SF_inj. rewrite div_spec, E. apply SFdiv_self.
Qed.

Lemma zero_div_pos x : (0 <? x) = true -> is_finite x = true -> 0 / x = 0.
Proof.
  rewrite ltb_spec, is_finite_spec. intros P F.
  apply Prim2SF_inj. rewrite div_spec.
  change (Prim2SF 0) with (S754_zero false) in *.
  destruct (Prim2SF x) as [[]|[]| |[] m e]; try discriminate; reflexivity.
Qed.

Lemma add_zero_eqb x z :
  is_finite x = true -> is_zero z = true -> (x + z =? x) = true.
Proof.
  rewrite is_finite_spec, is_zero_spec, eqb_spec, add_spec.
  destruct (Prim2SF x) as [sx|sx| |sx mx ex] eqn:Ex,
           (Prim2SF z) as [sz|sz| |sz mz ez]; try discriminate; intros _ _.
  - destruct sx, sz; reflexivity.
  - cbn [SF64add SFadd]. unfold SFeqb. rewrite SFcompare_refl; [reflexivity|discriminate].
Qed.

(* ================================================================== *)
(** ** Axis-aligned dimensions and the symmetry of the scene *)

Lemma finite_flags x :
  is_finite x = true -> is_nan x = false /\ is_infinity x = false.
Proof.
  intros F. split; [apply finite_not_nan, F|].
  rewrite is_finite_spec in F. rewrite is_infinity_spec.
  destruct (Prim2SF x); (discriminate F || reflexivity).
Qed.

Lemma is_zero_neg_zero : is_zero (- 0) = true.
Proof. reflexivity. Qed.

(** The length of a span along an axis is not replaced. *)
Lemma unit_vector_along approx d :
  (0 <? d) = true -> is_finite d = true -> approx d 0 = d ->
  or_else (Math_hypot approx d 0) 1 = d.
Proof.
  intros P F A.
  destruct (finite_flags d F) as [N I].
  pose proof (pos_not_zero d P) as Z.
  unfold Math_hypot. rewrite I, N, Z.
  change (is_infinity 0) with false. change (is_nan 0) with false.
  cbn [orb andb]. rewrite A.
  unfold or_else, ToBoolean. rewrite Z, N. reflexivity.
Qed.

Lemma hypot_across approx d :
  (0 <? d) = true -> is_finite d = true -> approx 0 d = d ->
  or_else (Math_hypot approx 0 d) 1 = d.
Proof.
  intros P F A.
  destruct (finite_flags d F) as [N I].
  pose proof (pos_not_zero d P) as Z.
  unfold Math_hypot. rewrite I, N, Z.
  change (is_infinity 0) with false. change (is_nan 0) with false.
  cbn [orb andb]. rewrite A, andb_false_r.
  unfold or_else, ToBoolean. rewrite Z, N. reflexivity.
Qed.

Lemma px_opp st x : px (computed st) (- x) = - px (computed st) x.
Proof.
  change (- x * scale (computed st) * zoom st
          = - (x * scale (computed st) * zoom st)).
  rewrite !mul_opp_l. reflexivity.
Qed.

(** X12: a dimension over a horizontal span from left to right is drawn
    parallel to the span, [offset] below it: both extension lines end at
    the height y + offset and at the abscissas of their anchors, and the
    dimension line joins these two ends.  The engine is assumed to return
    the length of the span itself for hypot(dx, 0). *)
Theorem Dim_horizontal hypot_approx x1 x2 y offset text rotate :
  is_finite x1 = true -> is_finite x2 = true -> is_finite offset = true ->
  is_finite y = true ->
  (0 <? x2 - x1) = true -> is_finite (x2 - x1) = true ->
  hypot_approx (x2 - x1) 0 = x2 - x1 ->
  let d := Dim hypot_approx x1 y x2 y offset text rotate in
  (line_x2 (ext1 d) =? x1) = true /\ line_y2 (ext1 d) = y + offset /\
  (line_x2 (ext2 d) =? x2) = true /\ line_y2 (ext2 d) = y + offset /\
  dim_line d = mkLine (line_x2 (ext1 d)) (y + offset)
                      (line_x2 (ext2 d)) (y + offset).
Proof.
  intros F1 F2 Fo Fy P Fd A d.
  pose proof (unit_vector_along hypot_approx (x2 - x1) P Fd A) as L.
  assert (y - y = 0) as Dy by (apply sub_self, Fy).
  assert (is_zero (- (0 / (x2 - x1)) * offset) = true) as Z.
  { rewrite (zero_div_pos _ P Fd).
    apply zero_mul_finite; [reflexivity|exact Fo]. }
  subst d. unfold Dim. cbv zeta. cbn [ext1 ext2 dim_line line_x2 line_y2].
  rewrite Dy, L, (div_self _ Fd (pos_not_zero _ P)), mul_one_l.
  repeat split; apply add_zero_eqb; assumption.
Qed.

(** X13: a dimension over a vertical span from top to bottom is drawn
    parallel to the span, [offset] to its left: both extension lines end
    at the abscissa x + (- offset) and at the heights of their anchors. *)
Theorem Dim_vertical hypot_approx x y1 y2 offset text rotate :
  is_finite x = true -> is_finite y1 = true -> is_finite y2 = true ->
  is_finite offset = true ->
  (0 <? y2 - y1) = true -> is_finite (y2 - y1) = true ->
  hypot_approx 0 (y2 - y1) = y2 - y1 ->
  let d := Dim hypot_approx x y1 x y2 offset text rotate in
  line_x2 (ext1 d) = x + - offset /\ (line_y2 (ext1 d) =? y1) = true /\
  line_x2 (ext2 d) = x + - offset /\ (line_y2 (ext2 d) =? y2) = true /\
  dim_line d = mkLine (x + - offset) (line_y2 (ext1 d))
                      (x + - offset) (line_y2 (ext2 d)).
Proof.
  intros Fx F1 F2 Fo P Fd A d.
  pose proof (hypot_across hypot_approx (y2 - y1) P Fd A) as L.
  assert (x - x = 0) as Dx by (apply sub_self, Fx).
  assert (is_zero (0 / (y2 - y1) * offset) = true) as Z.
  { rewrite (zero_div_pos _ P Fd).
    apply zero_mul_finite; [reflexivity|exact Fo]. }
  subst d. unfold Dim. cbv zeta. cbn [ext1 ext2 dim_line line_x2 line_y2].
  rewrite Dx, L, (div_self _ Fd (pos_not_zero _ P)), mul_opp_l, mul_one_l.
  repeat split; apply add_zero_eqb; assumption.
Qed.

(** X14: after any sequence of actions the scene is symmetric about the
    origin: the outline starts at the mirror images of the half width and
    the half thickness in pixels, the hole at the mirror image of half its
    diameter, and the axes extend as far to one side as to the other. *)
Theorem scene_is_centred hypot_approx actions :
  let st := run actions initial in
  let c := computed st in
  exists sc,
    BlockCreator hypot_approx st = Returns sc /\
    rect_x (outline sc) = - px c (hw c) /\
    rect_y (outline sc) = - px c (ht c) /\
    rect_x (center_hole sc) = - px c (centerHoleDia_in (p c) / 2) /\
    line_x1 (axis_x sc) = - line_x2 (axis_x sc) /\
    line_y1 (axis_y sc) = - line_y2 (axis_y sc).
Proof.
  intros st c.
  destruct (BlockCreator_renders hypot_approx st
              (run_precision_ok actions initial eq_refl)) as (sc & E & _).
  exists sc. split; [exact E|].
  unfold BlockCreator in E. cbv zeta in E.
  match type of E with
  | bind ?m _ = _ => destruct m as [dims|err]; cbn [bind] in E
  end; [|discriminate].
  injection E as <-. cbn [outline center_hole axis_x axis_y
                            rect_x rect_y line_x1 line_x2 line_y1 line_y2].
  subst c. rewrite <- !px_opp, div_opp_l. repeat split.
Qed.

(** The width dimension of the default scene. *)
Lemma Dim_horizontal_witness :
  let d := Dim hypot_scaled (-100) 25 100 25 40 "w" None in
  (line_x2 (ext1 d) =? -100) = true /\ line_y2 (ext1 d) = 25 + 40 /\
  (line_x2 (ext2 d) =? 100) = true /\ line_y2 (ext2 d) = 25 + 40 /\
  dim_line d = mkLine (line_x2 (ext1 d)) (25 + 40)
                      (line_x2 (ext2 d)) (25 + 40).
Proof.
  exact (Dim_horizontal hypot_scaled (-100) 100 25 40 "w" None
           eq_refl eq_refl eq_refl eq_refl eq_refl eq_refl eq_refl).
Defined.

(** The thickness dimension of the default scene. *)
Lemma Dim_vertical_witness :
  let d := Dim hypot_scaled (-100) (-25) (-100) 25 60 "t" (Some (-90)) in
  line_x2 (ext1 d) = -100 + - 60 /\ (line_y2 (ext1 d) =? -25) = true /\
  line_x2 (ext2 d) = -100 + - 60 /\ (line_y2 (ext2 d) =? 25) = true /\
  dim_line d = mkLine (-100 + - 60) (line_y2 (ext1 d))
                      (-100 + - 60) (line_y2 (ext2 d)).
Proof.
  exact (Dim_vertical hypot_scaled (-100) (-25) 25 60 "t" (Some (-90))
           eq_refl eq_refl eq_refl eq_refl eq_refl eq_refl eq_refl).
Defined.

(* ================================================================== *)
(** ** Magnitudes: sums, products and quotients that do not overflow *)

Module FloatMagnitude.

Import FloatBounds FloatExact.

Local Open Scope Z_scope.

Lemma Zdigits2_nonneg m : 0 <= Zdigits2 m.
Proof. destruct m; simpl; lia. Qed.

Lemma Zdigits2_lt m : 0 <= m -> m < 2 ^ Zdigits2 m.
Proof.
  intros H. destruct (Z.eq_dec m 0) as [->|N]; [simpl; lia|].
  apply Zdigits2_bounds. lia.
Qed.

Lemma Zdigits2_le_of_lt m k : 0 <= m -> 0 <= k -> m < 2 ^ k -> Zdigits2 m <= k.
Proof.
  intros Hm Hk H. destruct (Z.eq_dec m 0) as [->|N]; [simpl; lia|].
  apply Zdigits2_upper; lia.
Qed.

Lemma Zdigits2_mono a b : 0 < a -> a <= b -> Zdigits2 a <= Zdigits2 b.
Proof.
  intros Ha Hab. apply Zdigits2_upper; [exact Ha|].
  pose proof (Zdigits2_lt b). lia.
Qed.

(** What [shr_fexp] leaves of a mantissa: the exponent the format asks
    for, and as many digits fewer as the exponent was raised. *)
Lemma shr_fexp_mag m e l r e' :
  0 <= m ->
  shr_fexp prec emax m e l = (r, e') ->
  0 <= shr_m r /\
  e' = Z.max e (fexp prec emax (Zdigits2 m + e)) /\
  shr_m r < 2 ^ Z.max 0 (Zdigits2 m - (e' - e)).
Proof.
  intros Hm H.
  destruct (shr_fexp_spec m e l r e' Hm H) as [E1 E2]. cbv zeta in E1, E2.
  set (n := Z.max 0 (fexp prec emax (Zdigits2 m + e) - e)) in *.
  assert (0 <= n) as Hn by (subst n; lia).
  assert (0 < 2 ^ n) as Pn by (apply Z.pow_pos_nonneg; lia).
  pose proof (Zdigits2_lt m Hm) as U.
  pose proof (Zdigits2_nonneg m) as D.
  split; [rewrite E1; apply Z.div_pos; lia|].
  split; [subst n; lia|].
  replace (e' - e) with n by lia. rewrite E1.
  destruct (Z.le_gt_cases n (Zdigits2 m)) as [L|G].
  - rewrite Z.max_r by lia.
    apply Z.div_lt_upper_bound; [exact Pn|].
    rewrite <- Z.pow_add_r by lia.
    replace (n + (Zdigits2 m - n)) with (Zdigits2 m) by lia. exact U.
  - rewrite Z.max_l by lia.
    assert (2 ^ Zdigits2 m <= 2 ^ n) by (apply Z.pow_le_mono_r; lia).
    rewrite Z.div_small by lia. simpl. lia.
Qed.

(** Rounding a mantissa below [2 ^ (M - e)] gives a zero or a finite
    number below [2 ^ (M + 1)]: no overflow as long as [M] is at most
    1023. *)
Lemma binary_round_aux_below s m e l M :
  0 <= m -> e <= emax - prec -> Zdigits2 m + e <= M ->
  emin <= M -> M <= 1023 ->
  sf_below (M + 1) (binary_round_aux prec emax s m e l).
Proof.
  intros Hm He Hd Hlo Hhi. unfold binary_round_aux.
  destruct (shr_fexp prec emax m e l) as [r1 e1] eqn:E1.
  destruct (shr_fexp_mag _ _ _ _ _ Hm E1) as (P1 & Ee1 & U1).
  pose proof (round_nearest_even_bounds (shr_m r1) (loc_of_shr_record r1)) as Hr.
  set (m2 := round_nearest_even (shr_m r1) (loc_of_shr_record r1)) in *.
  assert (0 <= m2) as P2 by lia.
  destruct (shr_fexp prec emax m2 e1 loc_Exact) as [r2 e2] eqn:E2.
  destruct (shr_fexp_mag _ _ _ _ _ P2 E2) as (P3 & Ee2 & U3).
  pose proof (Zdigits2_nonneg m) as D0.
  pose proof (Zdigits2_nonneg m2) as D2.
  assert (Zdigits2 m2 <= Z.max 0 (Zdigits2 m - (e1 - e)) + 1) as B2.
  { apply Zdigits2_le_of_lt; [exact P2|lia|].
    rewrite Z.pow_add_r by lia. change (2 ^ 1) with 2. lia. }
  unfold fexp, SpecFloat.emin, prec, emax in *.
  assert (Zdigits2 m2 + e1 <= M + 1) as B3 by lia.
  destruct (shr_m r2) as [|q|q] eqn:Q; [exact I| |lia].
  assert ((e2 <=? 1024 - 53) = true) as L by (apply Z.leb_le; lia).
  rewrite L. cbn [sf_below].
  assert (1 <= Z.max 0 (Zdigits2 m2 - (e2 - e1))) as K.
  { destruct (Z.le_gt_cases 1 (Z.max 0 (Zdigits2 m2 - (e2 - e1)))) as [|G];
      [assumption|].
    replace (Z.max 0 (Zdigits2 m2 - (e2 - e1))) with 0 in U3 by lia.
    simpl in U3. lia. }
  assert (Zdigits2 (Zpos q) <= Zdigits2 m2 - (e2 - e1)) as B4.
  { apply Zdigits2_upper; [lia|].
    replace (Z.max 0 (Zdigits2 m2 - (e2 - e1))) with (Zdigits2 m2 - (e2 - e1))
      in U3 by lia.
    exact U3. }
  lia.
Qed.

Lemma valid_canonical s m e :
  valid_binary (S754_finite s m e) = true ->
  e = Z.max (Zdigits2 (Zpos m) + e - 53) (-1074) /\ e <= 971.
Proof.
  cbn [valid_binary]. unfold bounded, canonical_mantissa. intros V.
  apply andb_true_iff in V. destruct V as [C L].
  apply Z.eqb_eq in C. apply Z.leb_le in L.
  unfold fexp, SpecFloat.emin, prec, emax in *. cbn [Zdigits2]. lia.
Qed.

Lemma Zdigits2_mul a b :
  Zdigits2 (Zpos (a * b)) <= Zdigits2 (Zpos a) + Zdigits2 (Zpos b).
Proof.
  pose proof (Zdigits2_lt (Zpos a) ltac:(lia)) as A.
  pose proof (Zdigits2_lt (Zpos b) ltac:(lia)) as B.
  pose proof (Zdigits2_nonneg (Zpos a)). pose proof (Zdigits2_nonneg (Zpos b)).
  apply Zdigits2_upper; [lia|].
  rewrite Pos2Z.inj_mul, Z.pow_add_r by lia. nia.
Qed.

(** The product of two numbers below [2 ^ Mx] and [2 ^ My]. *)
Lemma SFmul_below Mx My x y :
  valid_binary x = true -> valid_binary y = true ->
  sf_below Mx x -> sf_below My y ->
  emin <= Mx + My -> Mx + My <= 1023 ->
  sf_below (Mx + My + 1) (SF64mul x y).
Proof.
  intros Vx Vy Bx By Hlo Hhi.
  destruct x as [sx|sx| |sx mx ex], y as [sy|sy| |sy my ey];
    cbn [sf_below] in *; try contradiction; try exact I.
  unfold SF64mul. cbn [SFmul].
  destruct (valid_canonical _ _ _ Vx) as [Cx Lx].
  destruct (valid_canonical _ _ _ Vy) as [Cy Ly].
  pose proof (Zdigits2_mul mx my) as D.
  unfold SpecFloat.emin, prec, emax in *.
  apply binary_round_aux_below; unfold SpecFloat.emin, prec, emax; lia.
Qed.

Lemma div_eucl_div a b : Z.div_eucl a b = (a / b, a mod b).
Proof. unfold Z.div, Z.modulo. destruct (Z.div_eucl a b). reflexivity. Qed.

(** The quotient of a number below [2 ^ Mx] by a finite number that is
    not below [2 ^ (Ly - 1)]. *)
Lemma SFdiv_below Mx Ly x sy my ey :
  sf_below Mx x ->
  Ly <= Zdigits2 (Zpos my) + ey ->
  emin <= Mx - Ly + 1 -> Mx - Ly + 1 <= 1023 ->
  sf_below (Mx - Ly + 2) (SF64div x (S754_finite sy my ey)).
Proof.
  intros Bx Hy Hlo Hhi.
  destruct x as [sx|sx| |sx mx ex]; cbn [sf_below] in Bx;
    try contradiction; try exact I.
  replace (Mx - Ly + 2) with (Mx - Ly + 1 + 1) by lia.
  unfold SF64div. cbn [SFdiv]. unfold SFdiv_core_binary. cbv zeta.
  set (d1 := Zdigits2 (Zpos mx)) in *. set (d2 := Zdigits2 (Zpos my)) in *.
  set (e' := Z.min (fexp prec emax (d1 + ex - (d2 + ey))) (ex - ey)).
  set (s := ex - ey - e').
  assert (0 <= s) as Hs by (subst s e'; lia).
  set (m' := match s with Z.pos _ => Z.shiftl (Zpos mx) s | 0 => Zpos mx
             | Z.neg _ => 0 end).
  assert (m' = Zpos mx * 2 ^ s) as Em.
  { subst m'. destruct s as [|q|q] eqn:S; [lia| |lia].
    apply Z.shiftl_mul_pow2. lia. }
  rewrite div_eucl_div.
  assert (0 < 2 ^ s) as Ps by (apply Z.pow_pos_nonneg; lia).
  set (q := m' / Zpos my).
  assert (0 <= q) as Hq by (subst q; apply Z.div_pos; lia).
  pose proof (Zdigits2_lt (Zpos mx) ltac:(lia)) as U1. fold d1 in U1.
  destruct (Zdigits2_bounds (Zpos my) ltac:(lia)) as [L2 _]. fold d2 in L2.
  assert (1 <= d1) as D1 by (subst d1; simpl; lia).
  assert (1 <= d2) as D2 by (subst d2; simpl; lia).
  assert (Zdigits2 q + e' <= Mx - Ly + 1) as B.
  { unfold fexp, SpecFloat.emin, prec, emax in *.
    destruct (Z.eq_dec q 0) as [->|Nq]; [simpl; subst e'; lia|].
    assert (m' < 2 ^ (d1 + s)) as Um
      by (rewrite Em, Z.pow_add_r by lia; nia).
    destruct (Z.le_gt_cases 0 (d1 + s - d2 + 1)) as [K|K].
    - assert (Zdigits2 q <= d1 + s - d2 + 1) as Dq.
      { apply Zdigits2_upper; [lia|].
        subst q. apply Z.div_lt_upper_bound; [lia|].
        assert (2 ^ (d1 + s) = 2 ^ (d2 - 1) * 2 ^ (d1 + s - d2 + 1)) as Ep
          by (rewrite <- Z.pow_add_r by lia; f_equal; lia).
        assert (0 < 2 ^ (d1 + s - d2 + 1)) by (apply Z.pow_pos_nonneg; lia).
        nia. }
      subst s. lia.
    - exfalso. apply Nq. subst q. apply Z.div_small.
      assert (2 ^ (d1 + s) <= 2 ^ (d2 - 1)) by (apply Z.pow_le_mono_r; lia).
      lia. }
  apply binary_round_aux_below; try assumption.
  unfold fexp, SpecFloat.emin, prec, emax in *. subst e'. lia.
Qed.

Lemma iter_xO m d : Zpos (Pos.iter xO m d) = Zpos m * 2 ^ Zpos d.
Proof.
  induction d as [|d IH] using Pos.peano_ind.
  - cbn [Pos.iter]. rewrite Z.pow_1_r. lia.
  - rewrite Pos.iter_succ, (Pos2Z.inj_xO (Pos.iter xO m d)), IH.
    rewrite Pos2Z.inj_succ, Z.pow_succ_r by lia. ring.
Qed.

(** Aligning a mantissa to a smaller exponent multiplies it by the power
    of two in between. *)
Lemma shl_align_spec m e e' :
  let '(m', e'') := shl_align m e e' in
  e'' = Z.min e e' /\ Zpos m' = Zpos m * 2 ^ (e - e'').
Proof.
  unfold shl_align. destruct (e' - e) as [|d|d] eqn:E.
  - split; [lia|]. replace (e - e) with 0 by lia. simpl. lia.
  - split; [lia|]. replace (e - e) with 0 by lia. simpl. lia.
  - split; [lia|]. rewrite iter_xO. f_equal. f_equal. lia.
Qed.

Lemma shl_align_fst m e e' :
  e' <= e -> Zpos (fst (shl_align m e e')) = Zpos m * 2 ^ (e - e').
Proof.
  intros H. pose proof (shl_align_spec m e e') as S.
  destruct (shl_align m e e') as [m' e'']. destruct S as [E1 E2].
  cbn [fst]. rewrite E2. f_equal. f_equal. lia.
Qed.

(** Normalizing a sum below [2 ^ (M - e)]. *)
Lemma binary_normalize_below m e M :
  Z.abs m < 2 ^ (M - e) -> emin <= M -> M <= 1023 ->
  sf_below (M + 1) (binary_normalize prec emax m e false).
Proof.
  intros Hm Hlo Hhi.
  assert (forall s q, Zpos q < 2 ^ (M - e) ->
            sf_below (M + 1) (binary_round prec emax s q e)) as G.
  { intros s q Hq. unfold binary_round.
    pose proof (shl_align_spec q e (fexp prec emax (Zpos (digits2_pos q) + e))) as S.
    destruct (shl_align q e (fexp prec emax (Zpos (digits2_pos q) + e)))
      as [mz ez].
    destruct S as [E1 E2].
    assert (0 <= M - e) as K.
    { destruct (Z.le_gt_cases 0 (M - e)); [assumption|].
      rewrite Z.pow_neg_r in Hq by lia. lia. }
    assert (Zdigits2 (Zpos q) <= M - e) as Dq
      by (apply Zdigits2_upper; [lia|exact Hq]).
    assert (Zdigits2 (Zpos mz) = Zdigits2 (Zpos q) + (e - ez)) as Dz
      by (rewrite E2; apply Zdigits2_mul_pow2; lia).
    cbn [Zdigits2] in Dq, Dz.
    unfold fexp, SpecFloat.emin, prec, emax in *.
    apply binary_round_aux_below; unfold SpecFloat.emin, prec, emax;
      cbn [Zdigits2]; lia. }
  destruct m as [|q|q]; cbn [binary_normalize]; [exact I| |]; apply G;
    simpl in Hm; exact Hm.
Qed.

Lemma aligned_lt M m e ez :
  ez <= e -> Zdigits2 (Zpos m) + e <= M ->
  Zpos (fst (shl_align m e ez)) < 2 ^ (M - ez).
Proof.
  intros H D. rewrite shl_align_fst by exact H.
  pose proof (Zdigits2_lt (Zpos m) ltac:(lia)) as U.
  pose proof (Zdigits2_nonneg (Zpos m)) as N.
  assert (0 < 2 ^ (e - ez)) by (apply Z.pow_pos_nonneg; lia).
  assert (2 ^ (Zdigits2 (Zpos m) + (e - ez)) <= 2 ^ (M - ez))
    by (apply Z.pow_le_mono_r; lia).
  rewrite Z.pow_add_r in * by lia. nia.
Qed.

(** The sum and the difference of two numbers below [2 ^ M]. *)
Lemma SFadd_below M x y :
  sf_below M x -> sf_below M y -> emin <= M + 1 -> M + 1 <= 1023 ->
  sf_below (M + 2) (SF64add x y).
Proof.
  intros Bx By Hlo Hhi.
  destruct x as [sx|sx| |sx mx ex], y as [sy|sy| |sy my ey];
    cbn [sf_below] in Bx, By; try contradiction.
  - destruct sx, sy; exact I.
  - cbn [SF64add SFadd sf_below]. lia.
  - cbn [SF64add SFadd sf_below]. lia.
  - unfold SF64add. cbn [SFadd].
    replace (M + 2) with (M + 1 + 1) by lia.
    pose proof (aligned_lt M mx ex (Z.min ex ey) ltac:(lia) Bx) as A.
    pose proof (aligned_lt M my ey (Z.min ex ey) ltac:(lia) By) as B.
    apply binary_normalize_below; try assumption.
    replace (M + 1 - Z.min ex ey) with (1 + (M - Z.min ex ey)) by lia.
    assert (0 <= M - Z.min ex ey).
    { destruct (Z.le_gt_cases 0 (M - Z.min ex ey)); [assumption|].
      rewrite Z.pow_neg_r in A by lia. lia. }
    rewrite Z.pow_add_r by lia. change (2 ^ 1) with 2.
    change (IntDef.Z.min ex ey) with (Z.min ex ey).
    destruct sx, sy; cbn [cond_Zopp]; lia.
Qed.

Lemma SFsub_below M x y :
  sf_below M x -> sf_below M y -> emin <= M + 1 -> M + 1 <= 1023 ->
  sf_below (M + 2) (SF64sub x y).
Proof.
  intros Bx By Hlo Hhi.
  destruct x as [sx|sx| |sx mx ex], y as [sy|sy| |sy my ey];
    cbn [sf_below] in Bx, By; try contradiction.
  - destruct sx, sy; exact I.
  - cbn [SF64sub SFsub sf_below]. lia.
  - cbn [SF64sub SFsub sf_below]. lia.
  - unfold SF64sub. cbn [SFsub].
    replace (M + 2) with (M + 1 + 1) by lia.
    pose proof (aligned_lt M mx ex (Z.min ex ey) ltac:(lia) Bx) as A.
    pose proof (aligned_lt M my ey (Z.min ex ey) ltac:(lia) By) as B.
    apply binary_normalize_below; try assumption.
    replace (M + 1 - Z.min ex ey) with (1 + (M - Z.min ex ey)) by lia.
    assert (0 <= M - Z.min ex ey).
    { destruct (Z.le_gt_cases 0 (M - Z.min ex ey)); [assumption|].
      rewrite Z.pow_neg_r in A by lia. lia. }
    rewrite Z.pow_add_r by lia. change (2 ^ 1) with 2.
    change (IntDef.Z.min ex ey) with (Z.min ex ey).
    destruct sx, sy; cbn [cond_Zopp]; lia.
Qed.

Lemma sf_below_mono M M' x : M <= M' -> sf_below M x -> sf_below M' x.
Proof. destruct x; cbn [sf_below]; auto. lia. Qed.

Lemma sf_below_finite M x : sf_below M x -> sf_finite x = true.
Proof. destruct x; cbn [sf_below]; try contradiction; reflexivity. Qed.

Lemma sf_below_opp M x : sf_below M x -> sf_below M (SFopp x).
Proof. destruct x; cbn [sf_below SFopp]; auto. Qed.

(** A number at most a finite number in magnitude is below the power of
    two above it. *)
Lemma SFabs_le_below x y :
  valid_binary x = true -> valid_binary y = true ->
  x <> S754_nan -> sf_finite y = true ->
  lex_le (sf_key (SFabs x)) (sf_key y) ->
  match y with
  | S754_finite _ my ey => sf_below (Zdigits2 (Zpos my) + ey) x
  | _ => sf_below emin x
  end.
Proof.
  intros Vx Vy Nx Fy L.
  destruct x as [sx|sx| |sx mx ex]; try congruence;
    destruct y as [sy|sy| |sy my ey]; try discriminate;
    cbn [sf_below]; try exact I;
    try (destruct sy; cbn [SFabs sf_key lex_le] in L; lia).
  destruct (valid_canonical _ _ _ Vx) as [Cx _].
  destruct (valid_canonical _ _ _ Vy) as [Cy _].
  destruct sy; cbn [SFabs sf_key lex_le] in L; [lia|].
  destruct L as [L|(_ & [L|(E & L)])]; [lia| |].
  - cbn [Zdigits2] in *. lia.
  - subst ey. pose proof (Zdigits2_mono (Zpos mx) (Zpos my) ltac:(lia) L). lia.
Qed.

End FloatMagnitude.

Import FloatMagnitude.

(** *** Magnitudes of binary64 numbers *)

Lemma below_finite M x : below M x -> is_finite x = true.
Proof. unfold below. rewrite is_finite_spec. apply sf_below_finite. Qed.

Lemma below_mono M M' x : (M <= M')%Z -> below M x -> below M' x.
Proof. unfold below. apply sf_below_mono. Qed.

Lemma below_opp M x : below M x -> below M (- x).
Proof. unfold below. rewrite opp_spec. apply sf_below_opp. Qed.

Lemma below_add M x y :
  below M x -> below M y -> (-1075 <= M)%Z -> (M <= 1022)%Z ->
  below (M + 2) (x + y).
Proof.
  unfold below. rewrite add_spec. intros Bx By Hlo Hhi.
  apply SFadd_below; try assumption; unfold SpecFloat.emin, prec, emax; lia.
Qed.

Lemma below_sub M x y :
  below M x -> below M y -> (-1075 <= M)%Z -> (M <= 1022)%Z ->
  below (M + 2) (x - y).
Proof.
  unfold below. rewrite sub_spec. intros Bx By Hlo Hhi.
  apply SFsub_below; try assumption; unfold SpecFloat.emin, prec, emax; lia.
Qed.

Lemma below_mul Mx My x y :
  below Mx x -> below My y -> (-1074 <= Mx + My)%Z -> (Mx + My <= 1023)%Z ->
  below (Mx + My + 1) (x * y).
Proof.
  unfold below. rewrite mul_spec. intros Bx By Hlo Hhi.
  apply SFmul_below; try assumption; try apply Prim2SF_valid;
    unfold SpecFloat.emin, prec, emax; lia.
Qed.

(** Half a number is not larger than the number. *)
Lemma below_half M x :
  below M x -> (-1073 <= M)%Z -> (M <= 1024)%Z -> below M (x / 2).
Proof.
  unfold below. rewrite div_spec, Prim2SF_2. intros Bx Hlo Hhi.
  replace M with (M - 2 + 2)%Z at 1 by lia.
  apply SFdiv_below; try assumption; unfold SpecFloat.emin, prec, emax;
    cbn [Zdigits2 digits2_pos]; simpl; lia.
Qed.

(** A number whose magnitude is at most a positive finite number is below
    the next power of two. *)
Lemma below_of_abs_leb x b mb eb :
  Prim2SF b = S754_finite false mb eb ->
  (abs x <=? b) = true ->
  below (Zdigits2 (Zpos mb) + eb) x.
Proof.
  intros Eb L. apply leb_iff in L. destruct L as (Nx & _ & L).
  unfold fkey in L. rewrite abs_spec in L.
  apply not_nan_spec in Nx. rewrite abs_spec in Nx.
  pose proof (SFabs_le_below (Prim2SF x) (Prim2SF b)
                (Prim2SF_valid x) (Prim2SF_valid b)) as G.
  rewrite Eb in G. apply G; [|reflexivity|rewrite <- Eb; exact L].
  intros E. rewrite E in Nx. apply Nx. reflexivity.
Qed.

(** The quotient by a finite number that is not smaller in magnitude is
    below 4. *)
Lemma below_div_le x d :
  is_finite d = true -> is_zero d = false -> (abs x <=? d) = true ->
  below 2 (x / d).
Proof.
  intros F Z L.
  destruct (finite_nonzero_spec d F Z) as (sd & md & ed & Ed).
  apply leb_iff in L. destruct L as (Nx & _ & L).
  unfold fkey in L. rewrite abs_spec in L.
  apply not_nan_spec in Nx. rewrite abs_spec in Nx.
  pose proof (SFabs_le_below (Prim2SF x) (Prim2SF d)
                (Prim2SF_valid x) (Prim2SF_valid d)) as G.
  rewrite Ed in G.
  assert (sf_below (Zdigits2 (Zpos md) + ed) (Prim2SF x)) as B.
  { apply G; [|reflexivity|rewrite <- Ed; exact L].
    intros E. rewrite E in Nx. apply Nx. reflexivity. }
  unfold below. rewrite div_spec, Ed.
  replace 2%Z with (Zdigits2 (Zpos md) + ed - (Zdigits2 (Zpos md) + ed) + 2)%Z
    by lia.
  apply SFdiv_below; try assumption; unfold SpecFloat.emin, prec, emax; lia.
Qed.

Lemma zero_abs_leb z d : is_zero z = true -> (0 <? d) = true -> (abs z <=? d) = true.
Proof.
  rewrite is_zero_spec, ltb_spec, leb_spec, abs_spec.
  change (Prim2SF 0) with (S754_zero false).
  destruct (Prim2SF z) as [sz|sz| |sz mz ez]; try discriminate. intros _.
  destruct (Prim2SF d) as [sd|[]| |[] md ed]; cbn; congruence.
Qed.

Lemma abs_leb_not_zero x d :
  is_zero x = false -> (abs x <=? d) = true -> is_zero d = false.
Proof.
  rewrite !is_zero_spec, leb_spec, abs_spec.
  destruct (Prim2SF d) as [sd|sd| |sd md ed]; try reflexivity.
  destruct (Prim2SF x) as [sx|sx| |sx mx ex]; cbn; congruence.
Qed.

Lemma Prim2SF_1e300 : Prim2SF 1e300 = S754_finite false 6724873095247260 944.
Proof. reflexivity. Qed.

(** What [Dim] divides by: never a zero, never NaN; finite and not below
    the two differences when the engine's length is. *)
Lemma or_else_one len : is_zero (or_else len 1) = false /\ is_nan (or_else len 1) = false.
Proof.
  unfold or_else, ToBoolean.
  destruct (is_zero len) eqn:Z; cbn [orb negb]; [split; reflexivity|].
  destruct (is_nan len) eqn:N; cbn [negb]; [split; reflexivity|].
  split; assumption.
Qed.

Lemma Dim_divisor hypot_approx dx dy :
  is_finite dx = true -> is_finite dy = true ->
  (is_zero dx && is_zero dy = false ->
   is_finite (hypot_approx dx dy) = true /\
   (abs dx <=? hypot_approx dx dy) = true /\
   (abs dy <=? hypot_approx dx dy) = true) ->
  let d := or_else (Math_hypot hypot_approx dx dy) 1 in
  is_finite d = true /\ (abs dx <=? d) = true /\ (abs dy <=? d) = true.
Proof.
  intros Fx Fy H d. subst d. unfold Math_hypot.
  destruct (finite_flags dx Fx) as [Nx Ix].
  destruct (finite_flags dy Fy) as [Ny Iy].
  rewrite Ix, Iy, Nx, Ny. cbn [orb].
  destruct (is_zero dx && is_zero dy) eqn:Z.
  - apply andb_true_iff in Z. destruct Z as [Zx Zy].
    change (or_else zero 1) with 1.
    split; [reflexivity|]. split; apply zero_abs_leb; auto.
  - destruct (H eq_refl) as (Fl & Lx & Ly).
    assert (is_zero (hypot_approx dx dy) = false) as Zl.
    { apply andb_false_iff in Z. destruct Z as [Z|Z].
      - exact (abs_leb_not_zero _ _ Z Lx).
      - exact (abs_leb_not_zero _ _ Z Ly). }
    unfold or_else, ToBoolean.
    rewrite Zl, (finite_not_nan _ Fl). cbn [orb negb]. auto.
Qed.

(** C8, as the code has it: for anchor points and an offset of magnitude
    up to 1e300, and an engine whose hypot is finite and not below its
    arguments in magnitude, [Dim] divides by its length or by 1, never by
    zero or NaN (by 1 when the anchors coincide, where the length is 0);
    it draws the extension lines from each anchor to its offset point
    o = anchor + n * offset and the dimension line between the offset
    points, with n = (-u.y, u.x) and u the direction divided by that
    length; every coordinate of the three lines and of the label anchor
    is finite. *)
Theorem Dim_geometry hypot_approx x1 y1 x2 y2 offset text rotate :
  (abs x1 <=? 1e300) = true -> (abs y1 <=? 1e300) = true ->
  (abs x2 <=? 1e300) = true -> (abs y2 <=? 1e300) = true ->
  (abs offset <=? 1e300) = true ->
  (is_zero (x2 - x1) && is_zero (y2 - y1) = false ->
   is_finite (hypot_approx (x2 - x1) (y2 - y1)) = true /\
   (abs (x2 - x1) <=? hypot_approx (x2 - x1) (y2 - y1)) = true /\
   (abs (y2 - y1) <=? hypot_approx (x2 - x1) (y2 - y1)) = true) ->
  let d := Dim hypot_approx x1 y1 x2 y2 offset text rotate in
  let len := Math_hypot hypot_approx (x2 - x1) (y2 - y1) in
  let ux := (x2 - x1) / or_else len 1 in
  let uy := (y2 - y1) / or_else len 1 in
  let nx := - uy in
  let ny := ux in
  (ext1 d = mkLine x1 y1 (x1 + nx * offset) (y1 + ny * offset) /\
   ext2 d = mkLine x2 y2 (x2 + nx * offset) (y2 + ny * offset) /\
   dim_line d = mkLine (x1 + nx * offset) (y1 + ny * offset)
                       (x2 + nx * offset) (y2 + ny * offset)) /\
  (is_zero (or_else len 1) = false /\ is_nan (or_else len 1) = false) /\
  (line_finite (ext1 d) = true /\
   line_finite (ext2 d) = true /\
   line_finite (dim_line d) = true /\
   is_finite (text_x (label d)) = true /\
   is_finite (text_y (label d)) = true) /\
  (x2 = x1 -> y2 = y1 -> len = 0 /\ or_else len 1 = 1).
Proof.
  intros Hx1 Hy1 Hx2 Hy2 Ho Hh d len ux uy nx ny.
  pose proof (below_of_abs_leb _ _ _ _ Prim2SF_1e300 Hx1) as Bx1.
  pose proof (below_of_abs_leb _ _ _ _ Prim2SF_1e300 Hy1) as By1.
  pose proof (below_of_abs_leb _ _ _ _ Prim2SF_1e300 Hx2) as Bx2.
  pose proof (below_of_abs_leb _ _ _ _ Prim2SF_1e300 Hy2) as By2.
  pose proof (below_of_abs_leb _ _ _ _ Prim2SF_1e300 Ho) as Bo.
  change (Zdigits2 6724873095247260 + 944)%Z with 997%Z in *.
  assert (below 999 (x2 - x1)) as Bdx by (apply (below_sub 997); auto; lia).
  assert (below 999 (y2 - y1)) as Bdy by (apply (below_sub 997); auto; lia).
  destruct (Dim_divisor hypot_approx _ _ (below_finite _ _ Bdx)
              (below_finite _ _ Bdy) Hh) as (Fd & Lx & Ly).
  fold len in Fd, Lx, Ly.
  destruct (or_else_one len) as [Zd Nd].
  assert (below 2 ux) as Bux by (apply below_div_le; assumption).
  assert (below 2 uy) as Buy by (apply below_div_le; assumption).
  assert (below 2 nx) as Bnx by (apply below_opp, Buy).
  assert (below 1000 (nx * offset)) as Bnxo
    by (apply (below_mul 2 997); auto; lia).
  assert (below 2 ny) as Bny by exact Bux.
  assert (below 1000 (ny * offset)) as Bnyo
    by (apply (below_mul 2 997); auto; lia).
  assert (forall a b, below 997 a -> below 1000 b -> below 1002 (a + b)) as Add.
  { intros a b Ba Bb. apply (below_add 1000); auto; try lia.
    apply (below_mono 997); [lia|exact Ba]. }
  pose proof (Add _ _ Bx1 Bnxo) as Box. pose proof (Add _ _ By1 Bnyo) as Boy.
  pose proof (Add _ _ Bx2 Bnxo) as Bpx. pose proof (Add _ _ By2 Bnyo) as Bpy.
  assert (forall a b c, below 1002 a -> below 1002 b -> below 5 c ->
            is_finite ((a + b) / 2 + c) = true /\
            is_finite ((a + b) / 2 - c) = true) as Mid.
  { intros a b c Ba Bb Bc.
    assert (below 1004 ((a + b) / 2)) as Bm
      by (apply below_half; try lia; apply (below_add 1002); auto; lia).
    pose proof (below_mono 5 1004 c ltac:(lia) Bc) as Bc'.
    split; apply (below_finite 1006).
    - apply (below_add 1004); auto; lia.
    - apply (below_sub 1004); auto; lia. }
  split; [repeat split|]. split; [split; assumption|]. split.
  - unfold line_finite.
    subst d. unfold Dim. cbv zeta.
    cbn [ext1 ext2 dim_line label text_x text_y
         line_x1 line_y1 line_x2 line_y2].
    fold len. fold ux. fold uy. fold nx. fold ny.
    rewrite (below_finite _ _ Bx1), (below_finite _ _ By1),
      (below_finite _ _ Bx2), (below_finite _ _ By2),
      (below_finite _ _ Box), (below_finite _ _ Boy),
      (below_finite _ _ Bpx), (below_finite _ _ Bpy).
    repeat split.
    + apply Mid; auto. destruct (given rotate); unfold below; cbn; lia.
    + apply Mid; auto. destruct (given rotate); unfold below; cbn; lia.
  - intros Ex Ey. subst x2 y2.
    assert (len = 0) as Hlen.
    { subst len. rewrite !sub_self by (eapply below_finite; eassumption).
      reflexivity. }
    split; [exact Hlen|rewrite Hlen; reflexivity].
Qed.

(** The anchors (0, 0) and (3, 4), offset 20: the length is 5 and every
    coordinate is finite.  Both anchors at (5, 7), label rotated by -90
    degrees: the length 0 is replaced by 1. *)
Lemma Dim_geometry_witness :
  (let d := Dim hypot_scaled 0 0 3 4 20 "x" None in
   Math_hypot hypot_scaled (3 - 0) (4 - 0) = 5 /\
   line_finite (ext1 d) = true /\
   line_finite (ext2 d) = true /\
   line_finite (dim_line d) = true /\
   is_finite (text_x (label d)) = true /\
   is_finite (text_y (label d)) = true) /\
  (let d := Dim hypot_scaled 5 7 5 7 20 "x" (Some (-90)) in
   or_else (Math_hypot hypot_scaled (5 - 5) (7 - 7)) 1 = 1 /\
   line_finite (ext1 d) = true /\
   line_finite (ext2 d) = true /\
   line_finite (dim_line d) = true /\
   is_finite (text_x (label d)) = true /\
   is_finite (text_y (label d)) = true).
Proof.
  pose proof (Dim_geometry hypot_scaled 0 0 3 4 20 "x" None
                eq_refl eq_refl eq_refl eq_refl eq_refl
                (fun _ => conj eq_refl (conj eq_refl eq_refl))) as A.
  assert (is_zero (5 - 5) && is_zero (7 - 7) = false ->
          is_finite (hypot_scaled (5 - 5) (7 - 7)) = true /\
          (abs (5 - 5) <=? hypot_scaled (5 - 5) (7 - 7)) = true /\
          (abs (7 - 7) <=? hypot_scaled (5 - 5) (7 - 7)) = true) as E
    by (intros e; discriminate e).
  pose proof (Dim_geometry hypot_scaled 5 7 5 7 20 "x" (Some (-90))
                eq_refl eq_refl eq_refl eq_refl eq_refl E) as B.
  cbv zeta in A, B.
  destruct A as (_ & _ & A3 & _). destruct B as (_ & _ & B3 & B4).
  exact (conj (conj eq_refl A3)
              (conj (proj2 (B4 eq_refl eq_refl)) B3)).
Defined.

(** C8, as stated, fails: the anchors (-1.7e308, 0) and (1.7e308, 0) are
    finite, their difference overflows to Infinity, the length is Infinity
    and the unit vector Infinity / Infinity is NaN, which reaches the
    extension lines, the dimension line and the label anchor.  Nor is it
    enough that the differences are finite: with the anchors
    (0, 1.7e308) and (1, 1.7e308) and the offset 1.7e308 the length is 1,
    and the offset point of the first anchor is at the height Infinity. *)
Lemma Dim_far_anchors_give_nan :
  (let d := Dim hypot_scaled (-1.7e308) 0 1.7e308 0 20 "x" None in
   is_finite (-1.7e308) = true /\ is_finite 1.7e308 = true /\
   1.7e308 - (-1.7e308) = infinity /\
   is_nan (line_y2 (ext1 d)) = true /\
   is_nan (line_y2 (ext2 d)) = true /\
   is_nan (line_y1 (dim_line d)) = true /\
   is_nan (text_y (label d)) = true) /\
  (let d := Dim hypot_scaled 0 1.7e308 1 1.7e308 1.7e308 "x" None in
   is_finite (1 - 0) = true /\ is_finite (1.7e308 - 1.7e308) = true /\
   Math_hypot hypot_scaled (1 - 0) (1.7e308 - 1.7e308) = 1 /\
   line_y2 (ext1 d) = infinity /\
   line_finite (ext1 d) = false).
Proof. vm_compute. repeat split. Qed.
